(** * Messaging utilities of the orchestration server

    A shallow embedding of [prefect/server/utilities/messaging/__init__.py]:
    the [Message] protocol, the abstract [Cache], [Publisher] and [Consumer]
    base classes, the in-memory [CapturingPublisher], and the resolver
    functions [create_cache], [create_publisher], [create_consumer] and
    [ephemeral_subscription].

    Python objects with mutable state are modelled by explicit state
    passing: a computation is a function from the state to an outcome
    (a value or a raised exception) and the state it leaves behind. *)

From stdpp Require Import gmap strings list fin_maps.

Set Default Proof Using "Type".
#[local] Set Warnings "-clear-no-such-hyp".

(** ** Exceptions and the state-and-exception monad *)

(** The exceptions this module can see.  [StopConsumer] is the class
    defined in the module; the others are Python built-ins. *)
Inductive exn : Type :=
  | AssertionError
  | ModuleNotFoundError (name : string)
  | KeyError (key : string)
  | AttributeError (name : string)
  | StopConsumer (ack : bool)
  | ValueError (msg : string).

#[global] Instance exn_eq_dec : EqDecision exn.
Proof. solve_decision. Defined.

(** [StopConsumer.__init__(self, ack: bool = False)]. *)
Definition StopConsumer_init (ack : option bool) : exn :=
  StopConsumer (default false ack).

Inductive result (A : Type) : Type :=
  | Ok (a : A)
  | Raise (e : exn).
Arguments Ok {A} a.
Arguments Raise {A} e.

Definition is_Ok {A} (r : result A) : bool :=
  match r with Ok _ => true | Raise _ => false end.

#[global] Instance result_ret : MRet result := λ A a, Ok a.
#[global] Instance result_bind : MBind result := λ A B k r,
  match r with Ok a => k a | Raise e => Raise e end.

(** [assert b] *)
Definition assert (b : bool) : result unit :=
  if b then Ok tt else Raise AssertionError.

(** A computation over a state [W]: mutations made before an exception
    is raised stay visible, as in Python. *)
Definition M (W A : Type) : Type := W → result A * W.

#[global] Instance M_ret {W} : MRet (M W) := λ A a w, (Ok a, w).
#[global] Instance M_bind {W} : MBind (M W) := λ A B k c w,
  match c w with
  | (Ok a, w') => k a w'
  | (Raise e, w') => (Raise e, w')
  end.
Definition raise {W A} (e : exn) : M W A := λ w, (Raise e, w).

(** A computation that cannot touch the state. *)
Definition liftR {W A} (r : result A) : M W A := λ w, (r, w).

(** Python truthiness of an [Optional[str]]: [None] and the empty string
    are false. *)
Definition truthy_str (o : option string) : bool :=
  match o with
  | None => false
  | Some s => negb (String.eqb s EmptyString)
  end.

(** ** Messages *)

(** [class Message(Protocol)]: anything with [data] and [attributes]. *)
Class Message (Msg : Type) := {
  data : Msg → string;
  attributes : Msg → gmap string string;
}.

(** [@dataclass class CapturedMessage] *)
Record CapturedMessage := mkCapturedMessage {
  cm_data : string;
  cm_attributes : gmap string string;
}.

#[global] Instance CapturedMessage_eq_dec : EqDecision CapturedMessage.
Proof. solve_decision. Defined.

#[global] Instance CapturedMessage_Message : Message CapturedMessage :=
  {| data := cm_data; attributes := cm_attributes |}.

(** ** The abstract [Cache] *)

(** [class Cache(abc.ABC)]: four abstract methods.  [C] is the type of
    cache objects and [S] the state they read and write. *)
Class Cache (C S : Type) := {
  Cache_init : option string → C;
  clear_recently_seen_messages : C → M S unit;
  without_duplicates :
    ∀ {Msg} `{Message Msg}, C → string → list Msg → M S (list Msg);
  forget_duplicates :
    ∀ {Msg} `{Message Msg}, C → string → list Msg → M S unit;
}.

(** ** A per-topic store of seen fingerprints *)

Module SeenStore.
Section store.
Context {Msg : Type} `{!Message Msg}.

(** The fingerprint of a message: its value at the attribute. *)
Definition fingerprint (attribute : string) (m : Msg) : option string :=
  attributes m !! attribute.

Definition fingerprints (attribute : string) (ms : list Msg) : list string :=
  omap (fingerprint attribute) ms.

Definition carries (attribute : string) (m : Msg) : Prop :=
  is_Some (fingerprint attribute m).

(** Modelled from the spec: the body of [Cache.without_duplicates], which
    is abstract in the module and implemented by the cache backends.  For
    each message in order, the fingerprint is the value of
    [attributes[attribute]]; an unseen fingerprint is marked seen and the
    message kept, a seen one drops the message; a message without the
    attribute fails at once. *)
Fixpoint without_duplicates (attribute : string) (messages : list Msg)
    (seen : gset string) : result (list Msg) * gset string :=
  match messages with
  | [] => (Ok [], seen)
  | m :: rest =>
      match fingerprint attribute m with
      | None => (Raise (KeyError attribute), seen)
      | Some key =>
          if decide (key ∈ seen) then without_duplicates attribute rest seen
          else
            match without_duplicates attribute rest ({[key]} ∪ seen) with
            | (Ok kept, seen') => (Ok (m :: kept), seen')
            | (Raise e, seen') => (Raise e, seen')
            end
      end
  end.

(** Modelled from the spec: the body of [Cache.forget_duplicates]
    (abstract in the module): unmark the fingerprint of each message; a
    message without the attribute is the same usage error as above. *)
Fixpoint forget_duplicates (attribute : string) (messages : list Msg)
    (seen : gset string) : result unit * gset string :=
  match messages with
  | [] => (Ok tt, seen)
  | m :: rest =>
      match fingerprint attribute m with
      | None => (Raise (KeyError attribute), seen)
      | Some key => forget_duplicates attribute rest (seen ∖ {[key]})
      end
  end.

End store.

(** Modelled from the spec: the body of [Cache.clear_recently_seen_messages]
    (abstract in the module): it resets all seen-state of the store. *)
Definition clear : gset string := ∅.
End SeenStore.

(** Modelled from the spec: a [Cache] implementation (the module only has
    the abstract class).  A cache object holds its topic; the seen
    fingerprints live in one store per topic, so a cache reads and writes
    "this topic's store". *)
Record TopicCache := mkTopicCache { cache_topic : option string }.

Abbreviation Stores := (gmap (option string) (gset string)).

(** Modelled from the spec: the store of a cache's topic inside the stores
    of all topics (the backing store is not part of the module); a topic
    nothing was marked for has the empty store. *)
Definition store_of (c : TopicCache) (s : Stores) : gset string :=
  default ∅ (s !! cache_topic c).

(** Modelled from the spec: a cache method (abstract in the module) runs on
    the store of the cache's topic and leaves the other topics alone. *)
Definition on_store {A} (c : TopicCache)
    (f : gset string → result A * gset string) : M Stores A :=
  λ s, let '(r, seen') := f (store_of c s) in (r, <[cache_topic c := seen']> s).

(** Modelled from the spec: the three operations of section 4.1 as the
    methods of the per-topic cache, in place of the backend class that
    implements [Cache]. *)
#[global] Instance TopicCache_Cache : Cache TopicCache Stores := {|
  Cache_init := mkTopicCache;
  clear_recently_seen_messages c := on_store c (λ _, (Ok tt, SeenStore.clear));
  without_duplicates Msg _ c attribute messages :=
    on_store c (SeenStore.without_duplicates attribute messages);
  forget_duplicates Msg _ c attribute messages :=
    on_store c (SeenStore.forget_duplicates attribute messages);
|}.

(** Successive [without_duplicates] calls on one cache with nothing
    forgotten, cleared or evicted in between (one retention window); the
    result collects what each call let pass. *)
Fixpoint without_duplicates_calls {C S Msg} `{!Cache C S, !Message Msg}
    (c : C) (attribute : string) (batches : list (list Msg)) : M S (list Msg) :=
  match batches with
  | [] => mret []
  | b :: bs =>
      kept ← without_duplicates c attribute b;
      kept' ← without_duplicates_calls c attribute bs;
      mret (kept ++ kept')
  end.

(** ** The abstract [Publisher] *)

(** [class Publisher(abc.ABC)].  The three arguments of [__aexit__]
    are collapsed into the optional exception that left the scope. *)
Class Publisher (P W : Type) := {
  aenter : P → M W P;
  aexit : P → option exn → M W unit;
  publish_data : P → string → gmap string string → M W unit;
}.

(** ** Context managers *)

(** An object with [__aenter__] and [__aexit__].  [cm_aexit] receives the
    value [__aenter__] produced (what the manager remembers of its entry)
    and the exception that left the body, if any; it answers whether the
    exception is suppressed. *)
Record AsyncContextManager (W V : Type) := mkCM {
  cm_aenter : M W V;
  cm_aexit : V → option exn → M W bool;
}.
Arguments mkCM {W V} _ _.
Arguments cm_aenter {W V} _.
Arguments cm_aexit {W V} _ _ _.

(** [async with cm as v: body v].  The result is [None] when the body
    raised and the manager suppressed the exception. *)
Definition async_with {W V A} (cm : AsyncContextManager W V)
    (body : V → M W A) : M W (option A) :=
  λ w,
    match cm_aenter cm w with
    | (Raise e, w1) => (Raise e, w1)
    | (Ok v, w1) =>
        match body v w1 with
        | (Ok a, w2) =>
            match cm_aexit cm v None w2 with
            | (Ok _, w3) => (Ok (Some a), w3)
            | (Raise e', w3) => (Raise e', w3)
            end
        | (Raise e, w2) =>
            match cm_aexit cm v (Some e) w2 with
            | (Ok true, w3) => (Ok None, w3)
            | (Ok false, w3) => (Raise e, w3)
            | (Raise e', w3) => (Raise e', w3)
            end
        end
    end.

(** ** Settings, modules and the resolver functions *)

(** Values that travel in keyword arguments ([dict[str, Any]]). *)
Inductive PyVal : Type :=
  | VStr (s : string)
  | VBool (b : bool)
  | VInt (z : Z).

#[global] Instance PyVal_eq_dec : EqDecision PyVal.
Proof. solve_decision. Defined.

Section resolver.
(** The classes a backend provides are not part of this module: [C], [P]
    and [K] are the types of its cache, publisher and consumer objects
    and [B] is the state of its broker. *)
Context {C P K B : Type}.

(** An importable module, seen through the attributes the two runtime
    protocols look for.  A missing attribute is [None].  Constructors are
    taken as functions of their arguments. *)
Record PyModule := mkPyModule {
  mod_Cache : option (string → C);
  mod_Publisher : option (string → C → option string → P);
  mod_Consumer : option (list PyVal → gmap string PyVal → K);
  mod_ephemeral_subscription :
    option (string → AsyncContextManager B (gmap string PyVal));
  mod_break_topic : option (unit → AsyncContextManager B unit);
}.

(** The two settings and the modules [importlib] can find by name. *)
Record Env := mkEnv {
  PREFECT_MESSAGING_CACHE : string;
  PREFECT_MESSAGING_BROKER : string;
  importable : gmap string PyModule;
}.

(** [importlib.import_module(name)] *)
Definition import_module (env : Env) (name : string) : result PyModule :=
  match importable env !! name with
  | Some module => Ok module
  | None => Raise (ModuleNotFoundError name)
  end.

Definition present {A} (o : option A) : bool :=
  match o with Some _ => true | None => false end.

(** Attribute access [module.name]. *)
Definition getattr {A} (name : string) (o : option A) : result A :=
  match o with Some a => Ok a | None => Raise (AttributeError name) end.

(** [isinstance(module, CacheModule)] for the [runtime_checkable]
    protocol with the single member [Cache]. *)
Definition isinstance_CacheModule (module : PyModule) : bool :=
  present (mod_Cache module).

(** [isinstance(module, BrokerModule)]: every member of the protocol
    must be an attribute of the module. *)
Definition isinstance_BrokerModule (module : PyModule) : bool :=
  present (mod_Publisher module) && present (mod_Consumer module)
  && present (mod_ephemeral_subscription module)
  && present (mod_break_topic module).

(** [def create_cache(topic: str = "default") -> Cache] *)
Definition create_cache (env : Env) (topic : option string) : result C :=
  let topic := default "default" topic in
  module ← import_module env (PREFECT_MESSAGING_CACHE env);
  assert (isinstance_CacheModule module);;
  Cache ← getattr "Cache" (mod_Cache module);
  mret (Cache topic).

(** [cache or create_cache()]: cache objects define neither [__bool__]
    nor [__len__], so only [None] is false. *)
Definition cache_or_create (env : Env) (cache : option C) : result C :=
  match cache with
  | Some c => Ok c
  | None => create_cache env None
  end.

(** [def create_publisher(topic, cache=None, deduplicate_by=None)] *)
Definition create_publisher (env : Env) (topic : string)
    (cache : option C) (deduplicate_by : option string) : result P :=
  cache ← cache_or_create env cache;
  module ← import_module env (PREFECT_MESSAGING_BROKER env);
  assert (isinstance_BrokerModule module);;
  Publisher ← getattr "Publisher" (mod_Publisher module);
  mret (Publisher topic cache deduplicate_by).

(** [kwargs.pop(key, default)]: the value and the remaining keywords. *)
Definition pop (key : string) (dflt : PyVal) (kwargs : gmap string PyVal)
    : PyVal * gmap string PyVal :=
  (default dflt (kwargs !! key), delete key kwargs).

(** [def create_consumer(topic: str, **kwargs) -> Consumer] *)
Definition create_consumer (env : Env) (topic : string)
    (kwargs : gmap string PyVal) : result K :=
  module ← import_module env (PREFECT_MESSAGING_BROKER env);
  assert (isinstance_BrokerModule module);;
  if String.eqb (PREFECT_MESSAGING_BROKER env) "prefect_redis.messaging" then
    let '(name, kwargs) := pop "name" (VStr topic) kwargs in
    let '(stream, kwargs) := pop "stream" (VStr topic) kwargs in
    let '(group, kwargs) := pop "group" (VStr topic) kwargs in
    let redis_kwargs : gmap string PyVal :=
      <["group" := group]> (<["stream" := stream]> (<["name" := name]> ∅)) in
    let redis_kwargs :=
      match kwargs !! "should_process_pending_messages" with
      | Some v => <["should_process_pending_messages" := v]> redis_kwargs
      | None => redis_kwargs
      end in
    Consumer ← getattr "Consumer" (mod_Consumer module);
    mret (Consumer [] redis_kwargs)
  else
    Consumer ← getattr "Consumer" (mod_Consumer module);
    mret (Consumer [VStr topic] ∅).

(** [@asynccontextmanager async def ephemeral_subscription(topic)].
    The decorator makes the generator a context manager whose scope body
    runs at the [yield], with an exception of the body thrown into the
    generator there.  The definition is the scope
    [async with ephemeral_subscription(topic) as kwargs: body kwargs]:
    the generator resolves and checks the module, then runs the body
    inside the backend's own manager. *)
Definition ephemeral_subscription (env : Env) (topic : string) {A}
    (body : gmap string PyVal → M B A) : M B (option A) :=
  module ← liftR (import_module env (PREFECT_MESSAGING_BROKER env));
  liftR (assert (isinstance_BrokerModule module));;
  es ← liftR (getattr "ephemeral_subscription"
                (mod_ephemeral_subscription module));
  async_with (es topic) body.
End resolver.
Arguments PyModule : clear implicits.
Arguments Env : clear implicits.

(** ** The capturing publisher *)

Section capturing.
Context {C S P K B : Type} `{!Cache C S}.

(** The state [CapturingPublisher] works on.  [messages: list = []] in
    the class body is evaluated once, when the class is created: the
    list is an attribute of the class, not of its instances. *)
Record World := mkWorld {
  CapturingPublisher_messages : list CapturedMessage;
  cache_state : S;
}.

(** What [__init__] binds on the instance: [topic], [cache] and
    [deduplicate_by], and nothing else. *)
Record CapturingPublisher := mkCapturingPublisher {
  topic : string;
  cache : C;
  deduplicate_by : option string;
}.

(** [CapturingPublisher.__init__(self, topic, cache=None,
    deduplicate_by=None)] *)
Definition CapturingPublisher_init (env : Env C P K B) (topic : string)
    (cache : option C) (deduplicate_by : option string)
    : result CapturingPublisher :=
  cache ← cache_or_create env cache;
  mret (mkCapturingPublisher topic cache deduplicate_by).

(** [self.messages]: the instance binds no [messages], so the lookup
    finds the attribute of the class. *)
Definition messages (self : CapturingPublisher) (w : World)
    : list CapturedMessage :=
  CapturingPublisher_messages w.

(** [self.messages.extend(to_publish)] mutates that list in place. *)
Definition messages_extend (self : CapturingPublisher)
    (to_publish : list CapturedMessage) : M World unit :=
  λ w, (Ok tt, mkWorld (messages self w ++ to_publish) (cache_state w)).

(** A call of a cache method from the publisher. *)
Definition on_cache {A} (c : M S A) : M World A :=
  λ w, let '(r, s) := c (cache_state w) in
       (r, mkWorld (CapturingPublisher_messages w) s).

(** The attribute when [if self.deduplicate_by:] holds. *)
Definition dedup_attribute (self : CapturingPublisher) : option string :=
  if truthy_str (deduplicate_by self) then deduplicate_by self else None.

(** [CapturingPublisher.publish_data(self, data, attributes)] *)
Definition CapturingPublisher_publish_data (self : CapturingPublisher)
    (data : string) (attributes : gmap string string) : M World unit :=
  let to_publish := [mkCapturedMessage data attributes] in
  to_publish ←
    match dedup_attribute self with
    | Some attribute =>
        on_cache (without_duplicates (cache self) attribute to_publish)
    | None => mret to_publish
    end;
  messages_extend self to_publish.

#[global] Instance CapturingPublisher_Publisher
    : Publisher CapturingPublisher World := {|
  aenter self := mret self;
  aexit self exc := mret tt;
  publish_data := CapturingPublisher_publish_data;
|}.
End capturing.
Arguments World : clear implicits.
Arguments CapturingPublisher : clear implicits.
Arguments mkWorld {S} _ _.
Arguments mkCapturingPublisher {C} _ _ _.

(** ** Using a publisher inside and outside its scope *)

Inductive call : Type :=
  | Aenter
  | Aexit
  | PublishData (data : string) (attributes : gmap string string).

Definition do_call {P W} `{!Publisher P W} (p : P) (c : call) : M W unit :=
  match c with
  | Aenter => _ ← aenter p; mret tt
  | Aexit => aexit p None
  | PublishData d a => publish_data p d a
  end.

(** The calls in order, up to the first one that raises. *)
Fixpoint do_calls {P W} `{!Publisher P W} (p : P) (cs : list call) : M W unit :=
  match cs with
  | [] => mret tt
  | c :: cs => do_call p c;; do_calls p cs
  end.

(** Whether the scope is open after the calls: entered and not exited
    since. *)
Definition in_scope (history : list call) : bool :=
  foldl (λ open c, match c with
                   | Aenter => true
                   | Aexit => false
                   | PublishData _ _ => open
                   end) false history.

(** ** A broker backend with temporary bindings *)

Module Backend.
(** Modelled from the spec: the broker side of the backend's
    [ephemeral_subscription], which no file of the module defines: the
    consumer-side bindings the broker holds, by name, with their topic. *)
Record Broker := mkBroker { bindings : gmap string string }.

(** Modelled from the spec: the backend's [ephemeral_subscription]
    (the module only delegates to it).  On entry it creates a binding on
    the topic under a name no binding has and yields the parameters a
    consumer needs to attach to it; on exit, with or without an
    exception, it deletes that binding and lets the exception through. *)
Definition ephemeral_subscription (topic : string)
    : AsyncContextManager Broker (gmap string PyVal) :=
  mkCM
    (λ b, let name := fresh (dom (bindings b)) in
          (Ok (<["subscription" := VStr name]> {["topic" := VStr topic]}),
           mkBroker (<[name := topic]> (bindings b))))
    (λ kwargs exc b,
       match kwargs !! "subscription" with
       | Some (VStr name) => (Ok false, mkBroker (delete name (bindings b)))
       | _ => (Ok false, b)
       end).
End Backend.

(** ** The consumer loop and the stop protocol *)

Module ConsumerLoop.
Section loop.
Context {Msg H : Type}.

(** [MessageHandler = Callable[[Message], Awaitable[None]]]; [H] is
    whatever state the handler keeps. *)
Definition MessageHandler : Type := Msg → M H unit.

(** Modelled from the spec: the states of [Consumer.run] (abstract in the
    module): running, stopping with the [ack] of the stop signal, and
    stopped with the outcome [run] hands to its caller. *)
Inductive phase : Type :=
  | RUNNING
  | STOPPING (ack : bool)
  | STOPPED (outcome : result unit).

(** Modelled from the spec: what a run of the consumer (no backend is
    part of the module) works on: the messages the backend still holds
    unacknowledged, in delivery order (the first is the one in flight),
    those acknowledged, and the state of the handler. *)
Record state := mkState {
  st_phase : phase;
  unacked : list Msg;
  acked : list Msg;
  handler_state : H;
}.

(** Modelled from the spec: the backend acknowledges the message in
    flight (the acknowledgment itself belongs to the backends). *)
Definition acknowledge (unacked acked : list Msg) : list Msg * list Msg :=
  match unacked with
  | m :: rest => (rest, acked ++ [m])
  | [] => (unacked, acked)
  end.

(** Modelled from the spec: one transition of [Consumer.run] (abstract
    in the module).  While running, the next message goes to the handler:
    a normal return acknowledges it; [StopConsumer] moves to stopping
    with its [ack]; any other exception ends the run with that
    exception.  Stopping acknowledges the message in flight when [ack]
    is true and leaves it otherwise, then [run] returns normally.  With
    no message to pull, the loop waits. *)
Definition step (handler : MessageHandler) (st : state) : option state :=
  match st_phase st with
  | RUNNING =>
      match unacked st with
      | [] => None
      | m :: _ =>
          match handler m (handler_state st) with
          | (Ok _, h) =>
              let '(u, a) := acknowledge (unacked st) (acked st) in
              Some (mkState RUNNING u a h)
          | (Raise (StopConsumer ack), h) =>
              Some (mkState (STOPPING ack) (unacked st) (acked st) h)
          | (Raise e, h) =>
              Some (mkState (STOPPED (Raise e)) (unacked st) (acked st) h)
          end
      end
  | STOPPING ack =>
      let '(u, a) :=
        if ack then acknowledge (unacked st) (acked st)
        else (unacked st, acked st) in
      Some (mkState (STOPPED (Ok tt)) u a (handler_state st))
  | STOPPED _ => None
  end.

(** Modelled from the spec: the loop of [Consumer.run] (abstract in the
    module), as the transitions from a state until the loop has stopped;
    [None] when it has not within [fuel] transitions or waits for a
    message. *)
Fixpoint steps (fuel : nat) (handler : MessageHandler) (st : state)
    : option (result unit * state) :=
  match st_phase st with
  | STOPPED outcome => Some (outcome, st)
  | _ =>
      match fuel with
      | 0 => None
      | Datatypes.S fuel =>
          match step handler st with
          | Some st' => steps fuel handler st'
          | None => None
          end
      end
  end.

(** Modelled from the spec: [Consumer.run(handler)] enters [RUNNING]
    on the messages the backend will deliver. *)
Definition run (fuel : nat) (handler : MessageHandler)
    (deliveries : list Msg) (h : H) : option (result unit * state) :=
  steps fuel handler (mkState RUNNING deliveries [] h).

(** The handler returns normally on each of the messages, in order. *)
Fixpoint handles (handler : MessageHandler) (ms : list Msg) (h : H)
    : option H :=
  match ms with
  | [] => Some h
  | m :: ms =>
      match handler m h with
      | (Ok _, h') => handles handler ms h'
      | (Raise _, _) => None
      end
  end.
End loop.
Arguments state : clear implicits.
End ConsumerLoop.

(** The messages of a list are duplicates for the cache: each carries a
    value the topic's store has marked seen, so [without_duplicates] drops
    every one of them. *)
Definition duplicates_for {Msg} `{!Message Msg} (c : TopicCache)
    (attribute : string) (ms : list Msg) (s : Stores) : Prop :=
  Forall (λ m, ∃ key, SeenStore.fingerprint attribute m = Some key
                      ∧ key ∈ store_of c s) ms.

(** The calls that publish, as opposed to those that open or close the
    scope. *)
Definition is_publish (c : call) : bool :=
  match c with PublishData _ _ => true | _ => false end.

(** ** Sample data *)

Definition sample_message (payload id : string) : CapturedMessage :=
  mkCapturedMessage payload {["id" := id]}.

Definition events_cache : TopicCache := mkTopicCache (Some "events").

Definition plain_publisher : CapturingPublisher TopicCache :=
  mkCapturingPublisher "events" events_cache None.

Definition dedup_publisher : CapturingPublisher TopicCache :=
  mkCapturingPublisher "events" events_cache (Some "id").

Definition empty_world : World Stores := mkWorld [] ∅.

(** A backend module with the whole capability set: the per-topic cache,
    the capturing publisher, a consumer that records how it was
    constructed, the temporary bindings of [Backend], and a [break_topic]
    manager that does nothing. *)
Definition memory_module
    : PyModule TopicCache (CapturingPublisher TopicCache)
               (list PyVal * gmap string PyVal) Backend.Broker :=
  mkPyModule
    (Some (λ topic, Cache_init (Some topic)))
    (Some mkCapturingPublisher)
    (Some pair)
    (Some Backend.ephemeral_subscription)
    (Some (λ _, mkCM (mret tt) (λ _ _, mret false))).

(** The same module without [break_topic], and one that only has
    [Publisher]. *)
Definition module_without_break_topic
    : PyModule TopicCache (CapturingPublisher TopicCache)
               (list PyVal * gmap string PyVal) Backend.Broker :=
  mkPyModule (mod_Cache memory_module) (mod_Publisher memory_module)
    (mod_Consumer memory_module) (mod_ephemeral_subscription memory_module)
    None.

Definition module_with_publisher_only
    : PyModule TopicCache (CapturingPublisher TopicCache)
               (list PyVal * gmap string PyVal) Backend.Broker :=
  mkPyModule None (mod_Publisher memory_module) None None None.

Definition sample_modules
    : gmap string (PyModule TopicCache (CapturingPublisher TopicCache)
                            (list PyVal * gmap string PyVal) Backend.Broker) :=
  <["memory" := memory_module]>
    (<["no_break_topic" := module_without_break_topic]>
       {["publisher_only" := module_with_publisher_only]}).

Definition memory_env := mkEnv "memory" "memory" sample_modules.
Definition misconfigured_broker_env := mkEnv "memory" "no_break_topic" sample_modules.
Definition misconfigured_cache_env := mkEnv "publisher_only" "memory" sample_modules.

(** A handler that counts the messages it has processed and raises
    [StopConsumer(ack)] on the message whose payload is ["stop"]. *)
Definition counting_handler (ack : bool)
    : @ConsumerLoop.MessageHandler CapturedMessage nat :=
  λ m count,
    if String.eqb (cm_data m) "stop"
    then (Raise (StopConsumer_init (Some ack)), count)
    else (Ok tt, Datatypes.S count).

(** ** Calls on several publishers *)

(** Calls on any publishers, in order, up to the first one that raises. *)
Fixpoint do_calls_on {P W} `{!Publisher P W} (cs : list (P * call)) : M W unit :=
  match cs with
  | [] => mret tt
  | (p, c) :: cs => do_call p c;; do_calls_on cs
  end.

(** The messages a list of calls asks to publish, in order. *)
Definition published (cs : list call) : list CapturedMessage :=
  omap (λ c, match c with
             | PublishData d a => Some (mkCapturedMessage d a)
             | _ => None
             end) cs.

(** The sample modules with the memory module also reachable under the
    name of the Redis broker. *)
Definition redis_env :=
  mkEnv "memory" "prefect_redis.messaging"
    (<["prefect_redis.messaging" := memory_module]> sample_modules).

(** * The orchestration client

    The parts of [prefect/client/orchestration/__init__.py] that decide
    something on their own: the scope of the two clients, the version
    check, the lookup of an automation, the paging of work queues and the
    settings the constructors hand to [httpx].  The HTTP client, the
    response objects and the schema classes belong to other packages and
    are taken as parameters. *)

Module Orchestration.

(** The exceptions the client raises or lets through.  An
    [HTTPStatusError] carries the status code of its response;
    [OtherException] stands for any other instance of [Exception] and
    [BaseExceptionOnly] for an exception that is not one, such as
    [KeyboardInterrupt] or [asyncio.CancelledError]. *)
Inductive exception : Type :=
  | RuntimeError (msg : string)
  | ValueError (msg : string)
  | HTTPStatusError (status_code : nat) (text : string)
  | ObjectNotFound (http_exc : exception)
  | ObjectAlreadyExists (http_exc : exception)
  | OtherException (text : string)
  | BaseExceptionOnly (text : string).

(** [isinstance(e, Exception)]: what [except Exception] catches.
    [KeyboardInterrupt], [SystemExit] and [asyncio.CancelledError] derive
    from [BaseException] alone. *)
Definition is_Exception (e : exception) : bool :=
  match e with
  | BaseExceptionOnly _ => false
  | _ => true
  end.

Inductive outcome (A : Type) : Type :=
  | Return (a : A)
  | Raised (e : exception).
Arguments Return {A} a.
Arguments Raised {A} e.

(** ** The scope of [SyncPrefectClient] *)

Section sync_scope.
(** [X] is the state of the [httpx] client behind [self._client]. *)
Context {X : Type}.
(** [self._client.__enter__()] and [self._client.__exit__( *exc_info)]. *)
Variable client_enter : X → outcome unit * X.
Variable client_exit : option exception → X → outcome unit * X.

(** The attributes of a client that its scope reads and writes. *)
Record SyncPrefectClient := mkSync {
  _closed : bool;
  _started : bool;
  _context_stack : Z;
  _client : X;
}.

(** What [__init__] leaves in those attributes. *)
Definition SyncPrefectClient_new (client : X) : SyncPrefectClient :=
  mkSync false false 0 client.

(** [SyncPrefectClient.__enter__(self)] *)
Definition SyncPrefectClient_enter (self : SyncPrefectClient)
    : outcome unit * SyncPrefectClient :=
  if _closed self then
    (Raised (RuntimeError
       "The client cannot be started again after closing. Retrieve a new client with `get_client()` instead."),
     self)
  else
    let stack := (_context_stack self + 1)%Z in
    if _started self then
      (Return tt, mkSync (_closed self) (_started self) stack (_client self))
    else
      match client_enter (_client self) with
      | (Return _, x) => (Return tt, mkSync (_closed self) true stack x)
      | (Raised e, x) =>
          (Raised e, mkSync (_closed self) (_started self) stack x)
      end.

(** [SyncPrefectClient.__exit__(self, *exc_info)] *)
Definition SyncPrefectClient_exit (self : SyncPrefectClient)
    (exc_info : option exception) : outcome unit * SyncPrefectClient :=
  let stack := (_context_stack self - 1)%Z in
  if (0 <? stack)%Z then
    (Return tt, mkSync (_closed self) (_started self) stack (_client self))
  else
    let '(r, x) := client_exit exc_info (_client self) in
    (r, mkSync true (_started self) stack x).

(** Entering and leaving [with client:] blocks. *)
Inductive scope_op : Type :=
  | Enter
  | Exit (exc_info : option exception).

Definition scope_step (self : SyncPrefectClient) (op : scope_op)
    : outcome unit * SyncPrefectClient :=
  match op with
  | Enter => SyncPrefectClient_enter self
  | Exit exc_info => SyncPrefectClient_exit self exc_info
  end.

(** The operations in order, up to the first one that raises. *)
Fixpoint scope_steps (self : SyncPrefectClient) (ops : list scope_op)
    : outcome unit * SyncPrefectClient :=
  match ops with
  | [] => (Return tt, self)
  | op :: ops =>
      match scope_step self op with
      | (Return _, self') => scope_steps self' ops
      | (Raised e, self') => (Raised e, self')
      end
  end.

(** Blocks that are properly nested inside [depth] open blocks and close
    none of those. *)
Fixpoint nested (depth : nat) (ops : list scope_op) : bool :=
  match ops with
  | [] => true
  | Enter :: ops => nested (Datatypes.S depth) ops
  | Exit _ :: ops =>
      match depth with
      | 0 => false
      | Datatypes.S depth => nested depth ops
      end
  end.

(** How many blocks a sequence leaves open on top of [depth]. *)
Fixpoint open_blocks (depth : nat) (ops : list scope_op) : nat :=
  match ops with
  | [] => depth
  | Enter :: ops => open_blocks (Datatypes.S depth) ops
  | Exit _ :: ops => open_blocks (Nat.pred depth) ops
  end.
End sync_scope.
Arguments SyncPrefectClient : clear implicits.
Arguments mkSync {X} _ _ _ _.

(** ** The scope of [PrefectClient] *)

Section async_scope.
(** [X] is the state of what lies behind the client: its exit stack, the
    application and the [httpx] client.  [Loop], [App] and [Lifespan] are
    the event loops, the ASGI applications and the lifespan managers. *)
Context {X Loop App Lifespan : Type}.
(** [asyncio.get_running_loop()] inside a coroutine. *)
Variable running_loop : X → Loop.
(** [self._exit_stack.__aenter__()] *)
Variable exit_stack_aenter : X → outcome unit * X.
(** [self._exit_stack.enter_async_context(app_lifespan_context(app))] *)
Variable enter_lifespan : App → X → outcome Lifespan * X.
(** [self._exit_stack.enter_async_context(self._client)] *)
Variable enter_client : X → outcome unit * X.
(** [self._exit_stack.__aexit__( *exc_info)] *)
Variable exit_stack_aexit : option exception → X → outcome (option bool) * X.

(** The attributes of a client that its scope reads and writes:
    [_closed], [_started], [_context_stack], [_loop], [_ephemeral_app],
    [manage_lifespan] and [_ephemeral_lifespan], and the state behind the
    client. *)
Record PrefectClient := mkAsync {
  a_closed : bool;
  a_started : bool;
  a_context_stack : Z;
  a_loop : option Loop;
  a_ephemeral_app : option App;
  a_manage_lifespan : bool;
  a_ephemeral_lifespan : option Lifespan;
  a_world : X;
}.

(** What [__init__] leaves in those attributes; [app] is the application
    when the client was given one instead of a URL. *)
Definition PrefectClient_new (app : option App) (x : X) : PrefectClient :=
  mkAsync false false 0 None app true None x.

(** [PrefectClient.__aenter__(self)] *)
Definition PrefectClient_aenter (self : PrefectClient)
    : outcome unit * PrefectClient :=
  if a_closed self then
    (Raised (RuntimeError
       "The client cannot be started again after closing. Retrieve a new client with `get_client()` instead."),
     self)
  else
    let stack := (a_context_stack self + 1)%Z in
    let with_world loop lifespan x started :=
      mkAsync (a_closed self) started stack loop (a_ephemeral_app self)
        (a_manage_lifespan self) lifespan x in
    if a_started self then
      (Return tt,
       with_world (a_loop self) (a_ephemeral_lifespan self) (a_world self) true)
    else
      let loop := Some (running_loop (a_world self)) in
      match exit_stack_aenter (a_world self) with
      | (Raised e, x) =>
          (Raised e, with_world loop (a_ephemeral_lifespan self) x false)
      | (Return _, x) =>
          let entered :=
            match a_ephemeral_app self with
            | Some app =>
                if a_manage_lifespan self then
                  match enter_lifespan app x with
                  | (Return l, x) => (Return tt, Some l, x)
                  | (Raised e, x) => (Raised e, a_ephemeral_lifespan self, x)
                  end
                else (Return tt, a_ephemeral_lifespan self, x)
            | None => (Return tt, a_ephemeral_lifespan self, x)
            end in
          match entered with
          | (Raised e, lifespan, x) => (Raised e, with_world loop lifespan x false)
          | (Return _, lifespan, x) =>
              match enter_client x with
              | (Raised e, x) => (Raised e, with_world loop lifespan x false)
              | (Return _, x) => (Return tt, with_world loop lifespan x true)
              end
          end
      end.

(** [PrefectClient.__aexit__(self, *exc_info)] *)
Definition PrefectClient_aexit (self : PrefectClient)
    (exc_info : option exception) : outcome (option bool) * PrefectClient :=
  let stack := (a_context_stack self - 1)%Z in
  let with_world closed x :=
    mkAsync closed (a_started self) stack (a_loop self) (a_ephemeral_app self)
      (a_manage_lifespan self) (a_ephemeral_lifespan self) x in
  if (0 <? stack)%Z then (Return None, with_world (a_closed self) (a_world self))
  else
    let '(r, x) := exit_stack_aexit exc_info (a_world self) in
    (r, with_world true x).

(** [PrefectClient.__enter__(self)]: the client has no synchronous
    scope. *)
Definition PrefectClient_enter (self : PrefectClient)
    : outcome unit * PrefectClient :=
  (Raised (RuntimeError
     "The `PrefectClient` must be entered with an async context. Use 'async with PrefectClient(...)' not 'with PrefectClient(...)'"),
   self).

Definition async_scope_step (self : PrefectClient) (op : scope_op)
    : outcome unit * PrefectClient :=
  match op with
  | Enter => PrefectClient_aenter self
  | Exit exc_info =>
      match PrefectClient_aexit self exc_info with
      | (Return _, self') => (Return tt, self')
      | (Raised e, self') => (Raised e, self')
      end
  end.

(** The operations in order, up to the first one that raises. *)
Fixpoint async_scope_steps (self : PrefectClient) (ops : list scope_op)
    : outcome unit * PrefectClient :=
  match ops with
  | [] => (Return tt, self)
  | op :: ops =>
      match async_scope_step self op with
      | (Return _, self') => async_scope_steps self' ops
      | (Raised e, self') => (Raised e, self')
      end
  end.
End async_scope.
Arguments PrefectClient : clear implicits.
Arguments mkAsync {X Loop App Lifespan} _ _ _ _ _ _ _ _.

(** ** The version check *)

(** [sub in s] for two strings. *)
Fixpoint occurs (sub s : string) : bool :=
  String.prefix sub s
  || match s with
     | EmptyString => false
     | String _ s' => occurs sub s'
     end.

(** The members of [ServerType] (the enumeration is declared next to the
    [httpx] wrappers). *)
Inductive ServerType : Type := EPHEMERAL | SERVER | CLOUD | UNCONFIGURED.

#[global] Instance ServerType_eq_dec : EqDecision ServerType.
Proof. solve_decision. Defined.

Section version_check.
Context {Response Version : Type}.
(** [self._client.get(url)] and [response.json()] read as a string. *)
Variable http_get : string → outcome Response.
Variable json_str : Response → outcome string.
(** [packaging.version.parse], the [major] of a version and its [str]. *)
Variable parse : string → outcome Version.
Variable major : Version → nat.
Variable str_version : Version → string.
(** [str(e)] and [prefect.__version__]. *)
Variable str_exception : exception → string.
Variable prefect_version : string.

(** [api_version(self)] *)
Definition api_version : outcome string :=
  match http_get "/admin/version" with
  | Return res => json_str res
  | Raised e => Raised e
  end.

(** [client_version(self)] *)
Definition client_version : string := prefect_version.

(** [raise_for_api_version_mismatch(self)], the same in both clients;
    [server_type] and [api_url] are the attributes it reads. *)
Definition raise_for_api_version_mismatch (server_type : ServerType)
    (api_url : string) : outcome unit :=
  if decide (server_type = CLOUD) then Return tt
  else
    match api_version with
    | Raised e =>
        if is_Exception e then
          if occurs "Unauthorized" (str_exception e) then Raised e
          else Raised (RuntimeError ("Failed to reach API at " ++ api_url))
        else Raised e
    | Return api_version =>
        match parse api_version with
        | Raised e => Raised e
        | Return api_version =>
            match parse client_version with
            | Raised e => Raised e
            | Return client_version =>
                if negb (major api_version =? major client_version) then
                  Raised (RuntimeError
                    ("Found incompatible versions: client: "
                     ++ str_version client_version ++ ", server: "
                     ++ str_version api_version
                     ++ ". Major versions must match."))
                else Return tt
            end
        end
    end.
End version_check.

(** ** Looking an automation up *)

Section automations.
Context {Response Automation UUID : Type}.
(** [self._client.get(url)] and [self._client.post(url)]. *)
Variable http_get : string → outcome Response.
Variable http_post : string → outcome Response.
(** [response.status_code] and [response.raise_for_status()]. *)
Variable status_code : Response → nat.
Variable raise_for_status : Response → outcome unit.
(** [Automation.model_validate(response.json())] and the validation of a
    list of automations. *)
Variable validate_automation : Response → outcome Automation.
Variable validate_automations : Response → outcome (list Automation).
(** [automation.name]. *)
Variable name : Automation → string.
(** [UUID(s)], [None] when it raises [ValueError], and [str(id)]. *)
Variable parse_UUID : string → option UUID.
Variable str_UUID : UUID → string.
(** [s.lower()]. *)
Variable lower : string → string.

(** [read_automation(self, automation_id)] *)
Definition read_automation (automation_id : UUID) : outcome (option Automation) :=
  match http_get ("/automations/" ++ str_UUID automation_id) with
  | Raised e => Raised e
  | Return response =>
      if status_code response =? 404 then Return None
      else
        match raise_for_status response with
        | Raised e => Raised e
        | Return _ =>
            match validate_automation response with
            | Raised e => Raised e
            | Return automation => Return (Some automation)
            end
        end
  end.

(** [read_automations(self)] *)
Definition read_automations : outcome (list Automation) :=
  match http_post "/automations/filter" with
  | Raised e => Raised e
  | Return response =>
      match raise_for_status response with
      | Raised e => Raised e
      | Return _ => validate_automations response
      end
  end.

(** [for automation in automations: if automation.name == name: return
    automation] *)
Fixpoint first_exact (wanted : string) (automations : list Automation)
    : option Automation :=
  match automations with
  | [] => None
  | automation :: automations =>
      if String.eqb (name automation) wanted then Some automation
      else first_exact wanted automations
  end.

(** The same loop on the lower-cased names. *)
Fixpoint first_caseless (wanted : string) (automations : list Automation)
    : option Automation :=
  match automations with
  | [] => None
  | automation :: automations =>
      if String.eqb (lower (name automation)) (lower wanted) then Some automation
      else first_caseless wanted automations
  end.

(** The part of [find_automation] that follows the lookup by id. *)
Definition find_by_name (wanted : string) : outcome (option Automation) :=
  match read_automations with
  | Raised e => Raised e
  | Return automations =>
      match first_exact wanted automations with
      | Some automation => Return (Some automation)
      | None => Return (first_caseless wanted automations)
      end
  end.

(** [find_automation(self, id_or_name)]; [inl] is a [str] and [inr] a
    [UUID] (a [UUID] object is always true). *)
Definition find_automation (id_or_name : string + UUID)
    : outcome (option Automation) :=
  let '(id, wanted) :=
    match id_or_name with
    | inl s => (parse_UUID s, s)
    | inr id => (Some id, str_UUID id)
    end in
  match id with
  | Some id =>
      match read_automation id with
      | Return automation => Return automation
      | Raised (HTTPStatusError code text) =>
          if code =? 404 then Raised (ObjectNotFound (HTTPStatusError code text))
          else find_by_name wanted
      | Raised e => Raised e
      end
  | None => find_by_name wanted
  end.
End automations.

(** ** Work queues *)

Section work_queues.
Context {Response WorkQueue Filter : Type}.
(** The JSON body of a filter request: the dumped filter, the limit and
    the offset. *)
Record FilterBody := mkFilterBody {
  body_work_queues : option Filter;
  body_limit : option nat;
  body_offset : option nat;
}.
(** [self._client.post(url, json=json)]. *)
Variable http_post : string → FilterBody → outcome Response.
(** The validation of [response.json()] as a list of work queues. *)
Variable validate_work_queues : Response → outcome (list WorkQueue).
(** [WorkQueueFilter(name=WorkQueueFilterName(startswith_=prefixes))]. *)
Variable startswith_filter : list string → Filter.

(** [read_work_queues(self, work_pool_name, work_queue_filter, limit,
    offset)]; a filter object is always true. *)
Definition read_work_queues (work_pool_name : option string)
    (work_queue_filter : option Filter) (limit offset : option nat)
    : outcome (list WorkQueue) :=
  let json := mkFilterBody work_queue_filter limit offset in
  let response :=
    if truthy_str work_pool_name then
      match http_post ("/work_pools/" ++ default EmptyString work_pool_name
                       ++ "/queues/filter") json with
      | Raised (HTTPStatusError code text) =>
          if code =? 404 then Raised (ObjectNotFound (HTTPStatusError code text))
          else Raised (HTTPStatusError code text)
      | r => r
      end
    else http_post "/work_queues/filter" json in
  match response with
  | Raised e => Raised e
  | Return response => validate_work_queues response
  end.

Definition page_length : nat := 100.

(** The loop of [match_work_queues]; [None] when it has not ended within
    [fuel] requests. *)
Fixpoint match_work_queues_loop (fuel : nat) (prefixes : list string)
    (work_pool_name : option string) (current_page : nat)
    (work_queues : list WorkQueue) : option (outcome (list WorkQueue)) :=
  match fuel with
  | 0 => None
  | Datatypes.S fuel =>
      match read_work_queues work_pool_name
              (Some (startswith_filter prefixes))
              (Some page_length) (Some (current_page * page_length)) with
      | Raised e => Some (Raised e)
      | Return [] => Some (Return work_queues)
      | Return new_queues =>
          match_work_queues_loop fuel prefixes work_pool_name
            (Datatypes.S current_page) (work_queues ++ new_queues)
      end
  end.

(** [match_work_queues(self, prefixes, work_pool_name)] *)
Definition match_work_queues (fuel : nat) (prefixes : list string)
    (work_pool_name : option string) : option (outcome (list WorkQueue)) :=
  match_work_queues_loop fuel prefixes work_pool_name 0 [].
End work_queues.
Arguments FilterBody : clear implicits.
Arguments mkFilterBody {Filter} _ _ _.

(** ** The constructors of the clients *)

(** [d.setdefault(key, value)] *)
Definition setdefault {V} (key : string) (value : V) (d : gmap string V)
    : gmap string V :=
  match d !! key with
  | Some _ => d
  | None => <[key := value]> d
  end.

Section client_init.
(** [App] are ASGI applications, [Obj] the objects of other packages that
    end up in the settings (SSL contexts, limits, timeouts, transports) and
    [Timeout] the value of the request timeout. *)
Context {App Obj Timeout : Type}.

(** The values of [httpx_settings] other than the headers. *)
Inductive Value : Type :=
  | VNone
  | VBool (b : bool)
  | VStr (s : string)
  | VApp (app : App)
  | VObj (o : Obj).

(** The truth value of an object of another package. *)
Variable truthy_obj : Obj → bool.

Definition truthy (v : option Value) : bool :=
  match v with
  | None | Some VNone => false
  | Some (VBool b) => b
  | Some (VStr s) => negb (String.eqb s EmptyString)
  | Some (VApp _) => true
  | Some (VObj o) => truthy_obj o
  end.

(** [httpx_settings]: the entry ["headers"], a dictionary when present,
    and the other entries. *)
Record HttpxSettings := mkHttpxSettings {
  headers : option (gmap string string);
  others : gmap string Value;
}.

(** The settings of the application the constructors read, with
    [SERVER_API_VERSION]. *)
Record ClientSettings := mkClientSettings {
  PREFECT_API_TLS_INSECURE_SKIP_VERIFY : bool;
  PREFECT_API_SSL_CERT_FILE : option string;
  PREFECT_API_ENABLE_HTTP2 : bool;
  PREFECT_CLOUD_API_URL : string;
  PREFECT_API_REQUEST_TIMEOUT : Timeout;
  PREFECT_TESTING_UNIT_TEST_MODE : bool;
  PREFECT_CLIENT_CSRF_SUPPORT_ENABLED : bool;
  SERVER_API_VERSION : string;
}.

(** [certifi.where()], the two ways an SSL context is made,
    [httpx.Limits(...)], [httpx.Timeout(...)] with the four timeouts equal,
    [httpx.ASGITransport(app=app, raise_app_exceptions=False)] and
    [base64.b64encode] between the UTF-8 encoding and decoding. *)
Variable certifi_where : string.
Variable unverified_context : Obj.
Variable verified_context : string → Obj.
Variable httpx_Limits : Obj.
Variable httpx_Timeout : Timeout → Obj.
Variable ASGITransport : App → Obj.
Variable b64encode : string → string.

(** What a constructor has worked out when it returns: the arguments of
    the [httpx] client, the attributes [server_type] and [_ephemeral_app],
    and whether it goes on to ask the transport for three retries. *)
Record Constructed := mkConstructed {
  client_headers : gmap string string;
  client_settings : gmap string Value;
  enable_csrf_support : bool;
  server_type : ServerType;
  _ephemeral_app : option App;
  asks_for_retries : bool;
}.

(** The lines on the headers, the same in both constructors. *)
Definition init_headers (settings : ClientSettings)
    (auth_string api_key api_version : option string)
    (headers : gmap string string) : gmap string string :=
  let api_version := default (SERVER_API_VERSION settings) api_version in
  let headers := setdefault "X-PREFECT-API-VERSION" api_version headers in
  let headers :=
    if truthy_str api_key
    then setdefault "Authorization"
           ("Bearer " ++ default EmptyString api_key)%string headers
    else headers in
  if truthy_str auth_string
  then setdefault "Authorization"
         ("Basic " ++ b64encode (default EmptyString auth_string))%string headers
  else headers.

(** The lines on [verify], the same in both constructors. *)
Definition init_verify (settings : ClientSettings)
    (others : gmap string Value) : gmap string Value :=
  if PREFECT_API_TLS_INSECURE_SKIP_VERIFY settings
  then setdefault "verify" (VObj unverified_context) others
  else
    let cert_file :=
      if truthy_str (PREFECT_API_SSL_CERT_FILE settings)
      then default EmptyString (PREFECT_API_SSL_CERT_FILE settings)
      else certifi_where in
    setdefault "verify" (VObj (verified_context cert_file)) others.

(** The lines from the timeout to the construction of the [httpx]
    client, the same in both constructors.  The call
    [Client( **httpx_settings, enable_csrf_support=...)] is a [TypeError]
    when the settings have that keyword themselves. *)
Definition init_finish (settings : ClientSettings) (api : string + App)
    (headers : gmap string string) (others : gmap string Value)
    (server_type : ServerType) (app : option App) : outcome Constructed :=
  let others :=
    setdefault "timeout"
      (VObj (httpx_Timeout (PREFECT_API_REQUEST_TIMEOUT settings))) others in
  let others :=
    if negb (PREFECT_TESTING_UNIT_TEST_MODE settings)
    then setdefault "follow_redirects" (VBool true) others
    else others in
  let enable_csrf_support :=
    negb (bool_decide (server_type = CLOUD))
    && PREFECT_CLIENT_CSRF_SUPPORT_ENABLED settings in
  match others !! "enable_csrf_support" with
  | Some _ =>
      Raised (OtherException
        "TypeError: got multiple values for keyword argument 'enable_csrf_support'")
  | None =>
      Return
        (mkConstructed headers others enable_csrf_support server_type app
           (match api with
            | inl _ => negb (truthy (others !! "transport"))
            | inr _ => false
            end))
  end.

(** The branch of both constructors for an API given by its URL. *)
Definition init_url (settings : ClientSettings) (api : string)
    (server_type : option ServerType) (others : gmap string Value)
    : outcome (gmap string Value * ServerType) :=
  if truthy (others !! "app") then
    Raised (ValueError
      "Invalid httpx settings: `app` cannot be set when providing an api url. `app` is only for use with ephemeral instances. Provide it as the `api` parameter instead.")
  else
    let others := setdefault "base_url" (VStr api) others in
    let others := setdefault "limits" (VObj httpx_Limits) others in
    let others :=
      setdefault "http2" (VBool (PREFECT_API_ENABLE_HTTP2 settings)) others in
    Return (others,
            match server_type with
            | Some server_type => server_type
            | None =>
                if String.prefix (PREFECT_CLOUD_API_URL settings) api
                then CLOUD else SERVER
            end).

(** [SyncPrefectClient.__init__(self, api, *, auth_string, api_key,
    api_version, httpx_settings, server_type)] *)
Definition SyncPrefectClient_init (settings : ClientSettings)
    (api : string + App) (auth_string api_key api_version : option string)
    (httpx_settings : option HttpxSettings)
    (server_type : option ServerType) : outcome Constructed :=
  let httpx_settings := default (mkHttpxSettings None ∅) httpx_settings in
  let headers := default ∅ (headers httpx_settings) in
  let others := init_verify settings (others httpx_settings) in
  let headers := init_headers settings auth_string api_key api_version headers in
  match api with
  | inl url =>
      match init_url settings url server_type others with
      | Raised e => Raised e
      | Return (others, server_type) =>
          init_finish settings api headers others server_type None
      end
  | inr app => init_finish settings api headers others EPHEMERAL (Some app)
  end.

(** [PrefectClient.__init__(self, api, *, auth_string, api_key,
    api_version, httpx_settings, server_type)] *)
Definition PrefectClient_init (settings : ClientSettings)
    (api : string + App) (auth_string api_key api_version : option string)
    (httpx_settings : option HttpxSettings)
    (server_type : option ServerType) : outcome Constructed :=
  let httpx_settings := default (mkHttpxSettings None ∅) httpx_settings in
  let headers := default ∅ (headers httpx_settings) in
  let others := init_verify settings (others httpx_settings) in
  let headers := init_headers settings auth_string api_key api_version headers in
  match api with
  | inl url =>
      match init_url settings url server_type others with
      | Raised e => Raised e
      | Return (others, server_type) =>
          init_finish settings api headers others server_type None
      end
  | inr app =>
      let others := setdefault "transport" (VObj (ASGITransport app)) others in
      let others :=
        setdefault "base_url" (VStr "http://ephemeral-prefect/api") others in
      init_finish settings api headers others EPHEMERAL (Some app)
  end.
End client_init.
Arguments Value : clear implicits.
Arguments HttpxSettings : clear implicits.
Arguments ClientSettings : clear implicits.
Arguments Constructed : clear implicits.

End Orchestration.

(** An [httpx] client that records the calls of its scope. *)
Definition logging_enter (log : list string)
    : Orchestration.outcome unit * list string :=
  (Orchestration.Return tt, log ++ ["enter"]).

Definition logging_exit (exc_info : option Orchestration.exception)
    (log : list string) : Orchestration.outcome unit * list string :=
  (Orchestration.Return tt, log ++ ["exit"]).

(** One whose first [__enter__] fails. *)
Definition flaky_enter (log : list string)
    : Orchestration.outcome unit * list string :=
  match log with
  | [] => (Orchestration.Raised (Orchestration.OtherException "connect"),
           ["failed"])
  | _ => (Orchestration.Return tt, log ++ ["enter"])
  end.

(** What lies behind an asynchronous client, recording the calls. *)
Definition logging_aenter (log : list string)
    : Orchestration.outcome unit * list string :=
  (Orchestration.Return tt, log ++ ["stack"]).

Definition logging_lifespan (app : string) (log : list string)
    : Orchestration.outcome string * list string :=
  (Orchestration.Return app, log ++ ["lifespan"]).

Definition logging_aexit (exc_info : option Orchestration.exception)
    (log : list string) : Orchestration.outcome (option bool) * list string :=
  (Orchestration.Return None, log ++ ["exit"]).

(** A server that answers [/admin/version] with a fixed text, and a
    version parser that takes the first digit as the major. *)
Definition sample_get (answer : string) (url : string)
    : Orchestration.outcome string :=
  Orchestration.Return answer.

Definition sample_parse (s : string) : Orchestration.outcome nat :=
  match s with
  | String c _ => Orchestration.Return (Ascii.nat_of_ascii c - 48)
  | EmptyString => Orchestration.Raised (Orchestration.OtherException "InvalidVersion")
  end.

Definition sample_str_exception (e : Orchestration.exception) : string :=
  match e with
  | Orchestration.RuntimeError msg | Orchestration.ValueError msg => msg
  | Orchestration.HTTPStatusError _ text => text
  | Orchestration.OtherException text => text
  | _ => "not found"
  end.

(** Automations given by their names, behind a server that lists three of
    them and knows no id. *)
Definition sample_automations : list string :=
  ["nightly"; "Cleanup"; "cleanup"].

Definition sample_lower (s : string) : string :=
  if String.eqb s "Cleanup" then "cleanup" else s.

(** Responses are a status and the names they carry; ids are numbers and
    only ["7"] reads as one. *)
Definition sample_list (url : string) : Orchestration.outcome (nat * list string) :=
  Orchestration.Return (200, sample_automations).

Definition sample_unknown (url : string) : Orchestration.outcome (nat * list string) :=
  Orchestration.Return (404, []).

Definition sample_raise_for_status (response : nat * list string)
    : Orchestration.outcome unit :=
  if response.1 <? 400 then Orchestration.Return tt
  else Orchestration.Raised (Orchestration.HTTPStatusError response.1 "error").

Definition sample_validate_one (response : nat * list string)
    : Orchestration.outcome string :=
  match response.2 with
  | a :: _ => Orchestration.Return a
  | [] => Orchestration.Raised (Orchestration.OtherException "ValidationError")
  end.

Definition sample_validate_all (response : nat * list string)
    : Orchestration.outcome (list string) :=
  Orchestration.Return response.2.

Definition sample_parse_UUID (s : string) : option nat :=
  if String.eqb s "7" then Some 7 else None.

Definition sample_str_UUID (id : nat) : string := "7".

(** A server holding work queues [0 .. 249] that answers a filter request
    with the slice the body asks for; the response is that slice. *)
Definition sample_queues : list nat := seq 0 250.

Definition sample_filter_post (url : string)
    (json : Orchestration.FilterBody (list string))
    : Orchestration.outcome (list nat) :=
  Orchestration.Return
    (take (default 0 (Orchestration.body_limit json))
       (drop (default 0 (Orchestration.body_offset json)) sample_queues)).

(** Settings of a local server, with applications, foreign objects and
    timeouts given by name and number. *)
Definition sample_client_settings : Orchestration.ClientSettings nat :=
  Orchestration.mkClientSettings false None true
    "https://api.prefect.cloud/api/" 30 false true "0.8.4".

Definition sample_sync_init :=
  Orchestration.SyncPrefectClient_init (App := string) (Obj := string)
    (λ _, true) "cacert.pem" "unverified" (λ file, file) "limits"
    (λ _, "timeout") (λ s, s) sample_client_settings.

Definition sample_async_init :=
  Orchestration.PrefectClient_init (App := string) (Obj := string)
    (λ _, true) "cacert.pem" "unverified" (λ file, file) "limits"
    (λ _, "timeout") (λ app, app) (λ s, s) sample_client_settings.

(** * Properties *)

(** ** The store of seen fingerprints *)

Section store_facts.
Context {Msg : Type} `{!Message Msg}.
Implicit Types (m : Msg) (ms kept : list Msg) (seen : gset string).

Import SeenStore.

Lemma fingerprints_cons_Some attribute m ms key :
  fingerprint attribute m = Some key →
  fingerprints attribute (m :: ms) = key :: fingerprints attribute ms.
Proof. intros Hk. unfold fingerprints. simpl. by rewrite Hk. Qed.

Lemma fingerprints_app attribute ms1 ms2 :
  fingerprints attribute (ms1 ++ ms2)
  = fingerprints attribute ms1 ++ fingerprints attribute ms2.
Proof. apply omap_app. Qed.

Lemma fingerprints_sublist attribute kept ms :
  kept `sublist_of` ms →
  fingerprints attribute kept `sublist_of` fingerprints attribute ms.
Proof.
  induction 1 as [|m l1 l2 _ IH|m l1 l2 _ IH]; unfold fingerprints in *; simpl.
  - constructor.
  - destruct (fingerprint attribute m); [by constructor | done].
  - destruct (fingerprint attribute m); [by constructor | done].
Qed.

(** What one call does on messages that all carry the attribute. *)
Lemma without_duplicates_store attribute ms seen :
  Forall (carries attribute) ms →
  ∃ kept,
    SeenStore.without_duplicates attribute ms seen
      = (Ok kept, list_to_set (fingerprints attribute kept) ∪ seen)
    ∧ kept `sublist_of` ms
    ∧ NoDup (fingerprints attribute kept)
    ∧ (∀ key, key ∈ fingerprints attribute kept → key ∉ seen).
Proof.
  intros Hall. revert seen.
  induction Hall as [|m ms [key Hkey] _ IH]; intros seen.
  - exists []. simpl. split_and!; [f_equal; set_solver | constructor.. | set_solver].
  - simpl. rewrite Hkey. destruct (decide (key ∈ seen)) as [Hin|Hout].
    + destruct (IH seen) as (kept & -> & Hsub & Hnd & Hfresh).
      exists kept. split_and!; [done | by constructor | done..].
    + destruct (IH ({[key]} ∪ seen)) as (kept & -> & Hsub & Hnd & Hfresh).
      exists (m :: kept). rewrite (fingerprints_cons_Some _ _ _ _ Hkey).
      split_and!.
      * f_equal. set_solver.
      * by constructor.
      * constructor; [|done]. intros Hk. apply Hfresh in Hk. set_solver.
      * intros k [->|Hk]%elem_of_cons; [done|].
        apply Hfresh in Hk. set_solver.
Qed.

(** A call that returns had only messages carrying the attribute. *)
Lemma without_duplicates_Ok_carries attribute ms seen kept seen' :
  SeenStore.without_duplicates attribute ms seen = (Ok kept, seen') →
  Forall (carries attribute) ms.
Proof.
  revert seen kept seen'. induction ms as [|m ms IH]; intros seen kept seen'.
  - constructor.
  - simpl. destruct (fingerprint attribute m) as [key|] eqn:Hkey; [|done].
    intros Hcall. constructor; [by eexists|].
    destruct (decide (key ∈ seen)); [by eapply IH|].
    destruct (SeenStore.without_duplicates attribute ms ({[key]} ∪ seen))
      as [[kept'|e] seen''] eqn:Hrest; [by eapply IH | done].
Qed.

(** Unseen, pairwise distinct fingerprints: every message is kept. *)
Lemma without_duplicates_keeps_all attribute ms seen :
  Forall (carries attribute) ms →
  NoDup (fingerprints attribute ms) →
  (∀ key, key ∈ fingerprints attribute ms → key ∉ seen) →
  SeenStore.without_duplicates attribute ms seen
    = (Ok ms, list_to_set (fingerprints attribute ms) ∪ seen).
Proof.
  intros Hall. revert seen.
  induction Hall as [|m ms [key Hkey] _ IH]; intros seen Hnd Hfresh.
  - simpl. f_equal. set_solver.
  - rewrite (fingerprints_cons_Some _ _ _ _ Hkey) in Hnd, Hfresh |- *.
    apply NoDup_cons in Hnd as [Hnotin Hnd].
    simpl. rewrite Hkey. rewrite decide_False by (apply Hfresh; by left).
    rewrite IH; [f_equal; set_solver | done |].
    intros k Hk. assert (k ∉ seen) by (apply Hfresh; by right).
    set_solver.
Qed.

Lemma forget_duplicates_store attribute ms seen :
  Forall (carries attribute) ms →
  SeenStore.forget_duplicates attribute ms seen
    = (Ok tt, seen ∖ list_to_set (fingerprints attribute ms)).
Proof.
  intros Hall. revert seen.
  induction Hall as [|m ms [key Hkey] _ IH]; intros seen.
  - simpl. f_equal. set_solver.
  - rewrite (fingerprints_cons_Some _ _ _ _ Hkey). simpl. rewrite Hkey, IH.
    f_equal. set_solver.
Qed.
End store_facts.

(** ** The per-topic cache *)

Section topic_cache_facts.
Context {Msg : Type} `{!Message Msg}.
Implicit Types (c : TopicCache) (ms kept : list Msg) (s : Stores).

Lemma store_of_insert c seen s :
  store_of c (<[cache_topic c := seen]> s) = seen.
Proof. unfold store_of. by rewrite lookup_insert_eq. Qed.

Lemma without_duplicates_TopicCache c attribute ms s :
  Forall (SeenStore.carries attribute) ms →
  ∃ kept,
    without_duplicates c attribute ms s
      = (Ok kept,
         <[cache_topic c :=
             list_to_set (SeenStore.fingerprints attribute kept) ∪ store_of c s]> s)
    ∧ kept `sublist_of` ms
    ∧ NoDup (SeenStore.fingerprints attribute kept)
    ∧ (∀ key, key ∈ SeenStore.fingerprints attribute kept → key ∉ store_of c s).
Proof.
  intros Hall.
  destruct (without_duplicates_store attribute ms (store_of c s) Hall)
    as (kept & Hcall & Hrest).
  exists kept. split; [|done].
  cbn. unfold on_store. by rewrite Hcall.
Qed.

Lemma without_duplicates_calls_TopicCache c attribute (batches : list (list Msg)) s :
  Forall (Forall (SeenStore.carries attribute)) batches →
  ∃ kept s',
    without_duplicates_calls c attribute batches s = (Ok kept, s')
    ∧ store_of c s'
      = list_to_set (SeenStore.fingerprints attribute kept) ∪ store_of c s
    ∧ kept `sublist_of` concat batches
    ∧ NoDup (SeenStore.fingerprints attribute kept)
    ∧ (∀ key, key ∈ SeenStore.fingerprints attribute kept → key ∉ store_of c s).
Proof.
  intros Hall. revert s.
  induction Hall as [|b bs Hb _ IH]; intros s.
  - exists [], s. cbn. split_and!; [done|set_solver|constructor..|set_solver].
  - destruct (without_duplicates_TopicCache c attribute b s Hb)
      as (kept1 & Hcall1 & Hsub1 & Hnd1 & Hfresh1).
    set (s1 := <[cache_topic c := _]> s) in Hcall1.
    destruct (IH s1) as (kept2 & s2 & Hcall2 & Hstore2 & Hsub2 & Hnd2 & Hfresh2).
    subst s1. rewrite store_of_insert in Hstore2, Hfresh2.
    exists (kept1 ++ kept2), s2.
    rewrite fingerprints_app. split_and!.
    + cbn [without_duplicates_calls]. unfold mbind, M_bind.
      rewrite Hcall1. fold (@without_duplicates_calls TopicCache Stores Msg _ _).
      by rewrite Hcall2.
    + rewrite Hstore2. set_solver.
    + simpl. by apply sublist_app.
    + apply NoDup_app. split_and!; [done| |done].
      intros key Hk1 Hk2. apply Hfresh2 in Hk2. set_solver.
    + intros key [Hk|Hk]%elem_of_app; [by apply Hfresh1|].
      apply Hfresh2 in Hk. set_solver.
Qed.
End topic_cache_facts.

(** C2: for messages that all carry the attribute, [without_duplicates]
    returns a subsequence of its input in the original order with
    pairwise distinct values of the attribute; and over any further calls
    on the same cache in the same retention window, the values of all the
    messages that passed are pairwise distinct and none of them had been
    seen before. *)
Theorem without_duplicates_subsequence_unique {Msg} `{!Message Msg}
    (c : TopicCache) (attribute : string) (ms : list Msg) (s : Stores) :
  Forall (SeenStore.carries attribute) ms →
  (∃ kept s',
      without_duplicates c attribute ms s = (Ok kept, s')
      ∧ kept `sublist_of` ms
      ∧ NoDup (SeenStore.fingerprints attribute kept))
  ∧ (∀ later : list (list Msg),
      Forall (Forall (SeenStore.carries attribute)) later →
      ∃ passed s',
        without_duplicates_calls c attribute (ms :: later) s = (Ok passed, s')
        ∧ passed `sublist_of` concat (ms :: later)
        ∧ NoDup (SeenStore.fingerprints attribute passed)
        ∧ (∀ key, key ∈ SeenStore.fingerprints attribute passed →
                  key ∉ store_of c s)).
Proof.
  intros Hall. split.
  - destruct (without_duplicates_TopicCache c attribute ms s Hall)
      as (kept & Hcall & Hsub & Hnd & _).
    by eexists kept, _.
  - intros later Hlater.
    destruct (without_duplicates_calls_TopicCache c attribute (ms :: later) s)
      as (passed & s' & Hcall & _ & Hsub & Hnd & Hfresh); [by constructor|].
    by exists passed, s'.
Qed.

Lemma without_duplicates_subsequence_unique_witness :
  (∃ kept s',
     without_duplicates events_cache "id"
       [sample_message "a" "abc"; sample_message "b" "abc";
        sample_message "c" "xyz"] ∅ = (Ok kept, s')
     ∧ kept `sublist_of`
         [sample_message "a" "abc"; sample_message "b" "abc";
          sample_message "c" "xyz"]
     ∧ NoDup (SeenStore.fingerprints "id" kept))
  ∧ (∃ passed s',
       without_duplicates_calls events_cache "id"
         ([sample_message "a" "abc"; sample_message "b" "abc";
           sample_message "c" "xyz"] :: [[sample_message "d" "abc"]]) ∅
       = (Ok passed, s')
       ∧ passed `sublist_of`
           concat ([sample_message "a" "abc"; sample_message "b" "abc";
                    sample_message "c" "xyz"] :: [[sample_message "d" "abc"]])
       ∧ NoDup (SeenStore.fingerprints "id" passed)
       ∧ (∀ key, key ∈ SeenStore.fingerprints "id" passed →
                 key ∉ store_of events_cache ∅)).
Proof.
  destruct (without_duplicates_subsequence_unique events_cache "id"
              [sample_message "a" "abc"; sample_message "b" "abc";
               sample_message "c" "xyz"] ∅) as [Hone Hcalls].
  - repeat constructor; eexists; reflexivity.
  - split; [exact Hone|].
    apply (Hcalls [[sample_message "d" "abc"]]).
    repeat constructor; eexists; reflexivity.
Defined.

Example without_duplicates_sample :
  fst (without_duplicates events_cache "id"
         [sample_message "a" "abc"; sample_message "b" "abc";
          sample_message "c" "xyz"] ∅)
  = Ok [sample_message "a" "abc"; sample_message "c" "xyz"].
Proof. vm_compute. reflexivity. Qed.

(** C4, as stated, fails when two messages of the list share a value: after
    [forget_duplicates], [without_duplicates] on
    [[{a, id=abc}; {b, id=abc}]] keeps only the first. *)
Lemma forget_then_without_duplicates_repeated_value :
  fst ((forget_duplicates events_cache "id"
          [sample_message "a" "abc"; sample_message "b" "abc"];;
        without_duplicates events_cache "id"
          [sample_message "a" "abc"; sample_message "b" "abc"]) ∅)
    = Ok [sample_message "a" "abc"]
  ∧ Ok [sample_message "a" "abc"]
    ≠ Ok [sample_message "a" "abc"; sample_message "b" "abc"].
Proof. split; [vm_compute; reflexivity | discriminate]. Qed.

(** C4 (amended): when every message of the list carries the attribute and
    their values are pairwise distinct, [forget_duplicates] followed at once
    by [without_duplicates] on the same list returns the whole list,
    whatever had been marked seen before. *)
Theorem forget_then_without_duplicates {Msg} `{!Message Msg}
    (c : TopicCache) (attribute : string) (ms : list Msg) (s : Stores) :
  Forall (SeenStore.carries attribute) ms →
  NoDup (SeenStore.fingerprints attribute ms) →
  ∃ s',
    (forget_duplicates c attribute ms;; without_duplicates c attribute ms) s
    = (Ok ms, s').
Proof.
  intros Hall Hnd. eexists.
  cbn. unfold mbind, M_bind, on_store.
  rewrite forget_duplicates_store by done.
  rewrite store_of_insert.
  rewrite without_duplicates_keeps_all; [done..|].
  set_solver.
Qed.

Lemma forget_then_without_duplicates_witness :
  ∃ s',
    (forget_duplicates events_cache "id"
       [sample_message "a" "abc"; sample_message "c" "xyz"];;
     without_duplicates events_cache "id"
       [sample_message "a" "abc"; sample_message "c" "xyz"])
      {[Some "events" := {["abc"]}]}
    = (Ok [sample_message "a" "abc"; sample_message "c" "xyz"], s').
Proof.
  apply (forget_then_without_duplicates events_cache "id"
           [sample_message "a" "abc"; sample_message "c" "xyz"]
           {[Some "events" := {["abc"]}]}).
  - repeat constructor; eexists; reflexivity.
  - apply (bool_decide_unpack _); vm_compute; exact I.
Defined.

Lemma duplicates_for_filtered {Msg} `{!Message Msg}
    (c : TopicCache) (attribute : string) (ms : list Msg) (s : Stores) :
  duplicates_for c attribute ms s →
  fst (without_duplicates c attribute ms s) = Ok [].
Proof.
  intros Hdup. cbn. unfold on_store.
  assert (SeenStore.without_duplicates attribute ms (store_of c s)
          = (Ok [], store_of c s)) as ->; [|done].
  induction Hdup as [|m ms (key & Hkey & Hseen) _ IH]; [done|].
  simpl. rewrite Hkey. by destruct (decide (key ∈ store_of c s)).
Qed.

(** C5, as stated, fails when two of the filtered messages share a value:
    from an empty store, [without_duplicates] on three messages with
    [id=abc] keeps the first and filters the other two; after
    [clear_recently_seen_messages], [without_duplicates] on those two
    returns only one of them. *)
Lemma clear_then_without_duplicates_repeated_value :
  fst (without_duplicates events_cache "id"
         [sample_message "a" "abc"; sample_message "b" "abc";
          sample_message "c" "abc"] ∅)
    = Ok [sample_message "a" "abc"]
  ∧ fst ((without_duplicates events_cache "id"
            [sample_message "a" "abc"; sample_message "b" "abc";
             sample_message "c" "abc"];;
          without_duplicates events_cache "id"
            [sample_message "b" "abc"; sample_message "c" "abc"]) ∅)
    = Ok []
  ∧ fst ((without_duplicates events_cache "id"
            [sample_message "a" "abc"; sample_message "b" "abc";
             sample_message "c" "abc"];;
          clear_recently_seen_messages events_cache;;
          without_duplicates events_cache "id"
            [sample_message "b" "abc"; sample_message "c" "abc"]) ∅)
    = Ok [sample_message "b" "abc"]
  ∧ Ok [sample_message "b" "abc"]
    ≠ Ok [sample_message "b" "abc"; sample_message "c" "abc"].
Proof. split_and!; [vm_compute; reflexivity.. | discriminate]. Qed.

(** C5 (amended): [clear_recently_seen_messages] empties the seen-state of
    the topic's store, and for messages that had been filtered out as
    duplicates and whose values are pairwise distinct, a following
    [without_duplicates] returns all of them again. *)
Theorem clear_then_without_duplicates {Msg} `{!Message Msg}
    (c : TopicCache) (attribute : string) (ms : list Msg) (s : Stores) :
  duplicates_for c attribute ms s →
  NoDup (SeenStore.fingerprints attribute ms) →
  store_of c (snd (clear_recently_seen_messages c s)) = ∅
  ∧ ∃ s',
      (clear_recently_seen_messages c;; without_duplicates c attribute ms) s
      = (Ok ms, s').
Proof.
  intros Hdup Hnd. split; [cbn; unfold on_store; by rewrite store_of_insert|].
  eexists. cbn. unfold mbind, M_bind, on_store.
  rewrite store_of_insert.
  rewrite without_duplicates_keeps_all; [done| |done|set_solver].
  eapply Forall_impl; [exact Hdup|]. intros m (key & Hkey & _). by exists key.
Qed.

Lemma clear_then_without_duplicates_witness :
  store_of events_cache
    (snd (clear_recently_seen_messages events_cache
            {[Some "events" := {["abc"; "xyz"]}]})) = ∅
  ∧ ∃ s',
      (clear_recently_seen_messages events_cache;;
       without_duplicates events_cache "id"
         [sample_message "a" "abc"; sample_message "c" "xyz"])
        {[Some "events" := {["abc"; "xyz"]}]}
      = (Ok [sample_message "a" "abc"; sample_message "c" "xyz"], s').
Proof.
  apply (clear_then_without_duplicates events_cache "id"
           [sample_message "a" "abc"; sample_message "c" "xyz"]
           {[Some "events" := {["abc"; "xyz"]}]}).
  - repeat constructor; eexists; (split; [reflexivity|]);
      apply (bool_decide_unpack _); vm_compute; exact I.
  - apply (bool_decide_unpack _); vm_compute; exact I.
Defined.

(** ** The capturing publisher *)

Section capturing_facts.
Context {C S : Type} `{!Cache C S}.
Implicit Types (self p q : CapturingPublisher C) (w : World S).

(** The three ways a call of [publish_data] can go. *)
Lemma publish_data_no_dedup self data attrs w :
  dedup_attribute self = None →
  publish_data self data attrs w
  = (Ok tt, mkWorld (messages self w ++ [mkCapturedMessage data attrs])
                    (cache_state w)).
Proof.
  intros Hnone. cbn. unfold CapturingPublisher_publish_data. by rewrite Hnone.
Qed.

Lemma publish_data_dedup_Ok self data attrs w attribute kept s' :
  dedup_attribute self = Some attribute →
  without_duplicates (cache self) attribute
    [mkCapturedMessage data attrs] (cache_state w) = (Ok kept, s') →
  publish_data self data attrs w
  = (Ok tt, mkWorld (messages self w ++ kept) s').
Proof.
  intros Hsome Hcall. cbn. unfold CapturingPublisher_publish_data.
  rewrite Hsome. unfold mbind, M_bind, on_cache. by rewrite Hcall.
Qed.

Lemma publish_data_dedup_Raise self data attrs w attribute e s' :
  dedup_attribute self = Some attribute →
  without_duplicates (cache self) attribute
    [mkCapturedMessage data attrs] (cache_state w) = (Raise e, s') →
  publish_data self data attrs w = (Raise e, mkWorld (messages self w) s').
Proof.
  intros Hsome Hcall. cbn. unfold CapturingPublisher_publish_data.
  rewrite Hsome. unfold mbind, M_bind, on_cache. by rewrite Hcall.
Qed.

(** [__aenter__] and [__aexit__] do nothing. *)
Lemma do_call_scope p c w :
  c = Aenter ∨ c = Aexit → do_call p c w = (Ok tt, w).
Proof. by intros [->| ->]. Qed.

Lemma do_calls_erase_scope p cs w :
  do_calls p cs w = do_calls p (filter is_publish cs) w.
Proof.
  revert w. induction cs as [|c cs IH]; intros w; [done|].
  destruct c as [| |d a].
  - rewrite filter_cons_False by (simpl; auto).
    rewrite <- IH. done.
  - rewrite filter_cons_False by (simpl; auto).
    rewrite <- IH. done.
  - rewrite filter_cons_True by done.
    cbn [do_calls]. unfold mbind, M_bind.
    destruct (do_call p (PublishData d a) w) as [[[]|e] w1]; [apply IH|done].
Qed.
End capturing_facts.

(** With the empty string as [deduplicate_by], [if self.deduplicate_by:]
    is false and nothing is deduplicated. *)
Remark dedup_attribute_empty_string {C} (topic : string) (cache : C) :
  dedup_attribute (mkCapturingPublisher topic cache (Some EmptyString)) = None.
Proof. reflexivity. Qed.

Remark dedup_attribute_Some {C} (self : CapturingPublisher C) attribute :
  dedup_attribute self = Some attribute ↔
  deduplicate_by self = Some attribute ∧ attribute ≠ EmptyString.
Proof.
  unfold dedup_attribute, truthy_str.
  destruct (deduplicate_by self) as [a|]; [|naive_solver].
  destruct (String.eqb_spec a EmptyString); naive_solver.
Qed.

(** C1: with a dedup attribute configured (a [deduplicate_by] that
    [if self.deduplicate_by:] takes as true), [publish_data] runs
    [without_duplicates] on the one-message batch built from its arguments;
    when the cache filters the message out, nothing is added to the sink
    and the call returns normally; when the message survives, or when no
    dedup attribute is configured, exactly that message is added.  With the
    per-topic cache, publishing two messages with the same value of the
    dedup attribute adds exactly one message, the first, when the value had
    not been seen, and never the second. *)
Theorem publish_data_deduplicates :
  (∀ {C S} `{!Cache C S} (self : CapturingPublisher C) data attrs (w : World S),
     (dedup_attribute self = None →
      publish_data self data attrs w
      = (Ok tt, mkWorld (messages self w ++ [mkCapturedMessage data attrs])
                        (cache_state w)))
     ∧ (∀ attribute s',
          dedup_attribute self = Some attribute →
          without_duplicates (cache self) attribute
            [mkCapturedMessage data attrs] (cache_state w) = (Ok [], s') →
          publish_data self data attrs w = (Ok tt, mkWorld (messages self w) s'))
     ∧ (∀ attribute s',
          dedup_attribute self = Some attribute →
          without_duplicates (cache self) attribute
            [mkCapturedMessage data attrs] (cache_state w)
            = (Ok [mkCapturedMessage data attrs], s') →
          publish_data self data attrs w
          = (Ok tt, mkWorld (messages self w ++ [mkCapturedMessage data attrs]) s')))
  ∧ (∀ (self : CapturingPublisher TopicCache) attribute value
       data1 attrs1 data2 attrs2 (w : World Stores),
       dedup_attribute self = Some attribute →
       attrs1 !! attribute = Some value →
       attrs2 !! attribute = Some value →
       ∃ w',
         (publish_data self data1 attrs1;; publish_data self data2 attrs2) w
         = (Ok tt, w')
         ∧ messages self w'
           = messages self w
             ++ (if decide (value ∈ store_of (cache self) (cache_state w))
                 then [] else [mkCapturedMessage data1 attrs1])).
Proof.
  split.
  - intros C S ? self data attrs w. split_and!.
    + apply publish_data_no_dedup.
    + intros attribute s' Hsome Hcall.
      rewrite (publish_data_dedup_Ok _ _ _ _ _ _ _ Hsome Hcall).
      by rewrite app_nil_r.
    + intros attribute s' Hsome Hcall.
      by rewrite (publish_data_dedup_Ok _ _ _ _ _ _ _ Hsome Hcall).
  - intros self attribute value data1 attrs1 data2 attrs2 w Hsome H1 H2.
    cbn. unfold CapturingPublisher_publish_data, mbind, M_bind.
    rewrite Hsome. cbn. unfold on_cache, on_store, messages_extend, messages.
    cbn. unfold SeenStore.fingerprint. cbn. rewrite H1, H2.
    destruct (decide (value ∈ store_of (cache self) (cache_state w)))
      as [Hin|Hout]; cbn.
    + rewrite store_of_insert. rewrite decide_True by done.
      eexists. split; [done|]. cbn. by rewrite !app_nil_r.
    + rewrite store_of_insert. rewrite decide_True by set_solver.
      eexists. split; [done|]. cbn. by rewrite !app_nil_r.
Qed.

Lemma publish_data_deduplicates_witness :
  publish_data plain_publisher "first" {["id" := "abc"]} empty_world
  = (Ok tt, mkWorld (messages plain_publisher empty_world
                     ++ [mkCapturedMessage "first" {["id" := "abc"]}])
                    (cache_state empty_world))
  ∧ ∃ w',
      (publish_data dedup_publisher "first" {["id" := "abc"]};;
       publish_data dedup_publisher "second" {["id" := "abc"]}) empty_world
      = (Ok tt, w')
      ∧ messages dedup_publisher w'
        = messages dedup_publisher empty_world
          ++ (if decide ("abc" ∈ store_of (cache dedup_publisher)
                                    (cache_state empty_world))
              then [] else [mkCapturedMessage "first" {["id" := "abc"]}]).
Proof.
  destruct publish_data_deduplicates as [Hone Htwice]. split.
  - apply (Hone _ _ _ plain_publisher). reflexivity.
  - apply (Htwice dedup_publisher "id" "abc"); reflexivity.
Defined.

Example publish_twice_delivers_once :
  CapturingPublisher_messages
    (snd ((publish_data dedup_publisher "first" {["id" := "abc"]};;
           publish_data dedup_publisher "second" {["id" := "abc"]}) empty_world))
  = [mkCapturedMessage "first" {["id" := "abc"]}].
Proof. vm_compute. reflexivity. Qed.

(** C3, as stated, fails: a publisher that was never entered, and one that
    was entered and exited, both publish and return normally. *)
Lemma publish_data_outside_scope_succeeds :
  in_scope [] = false
  ∧ do_calls plain_publisher [PublishData "payload" ∅] empty_world
    = (Ok tt, mkWorld [mkCapturedMessage "payload" ∅] ∅)
  ∧ in_scope [Aenter; Aexit] = false
  ∧ do_calls plain_publisher [Aenter; Aexit; PublishData "payload" ∅] empty_world
    = (Ok tt, mkWorld [mkCapturedMessage "payload" ∅] ∅).
Proof. split_and!; reflexivity. Qed.

(** C3 (amended): [CapturingPublisher] keeps no record of its scope.
    [__aenter__] and [__aexit__] change nothing and never raise, so any
    sequence of calls on a publisher has the outcome of its [publish_data]
    calls alone; [publish_data] before the scope is entered or after it is
    exited does what it does inside it, and with no dedup attribute it
    adds the message and returns normally. *)
Theorem publish_data_ignores_scope {C S} `{!Cache C S}
    (p : CapturingPublisher C) (history : list call) data attrs (w : World S) :
  do_calls p history w = do_calls p (filter is_publish history) w
  ∧ (Forall (λ c, c = Aenter ∨ c = Aexit) history →
     do_calls p (history ++ [PublishData data attrs]) w
     = do_calls p [PublishData data attrs] w)
  ∧ (dedup_attribute p = None →
     do_calls p [PublishData data attrs] w
     = (Ok tt, mkWorld (messages p w ++ [mkCapturedMessage data attrs])
                       (cache_state w))).
Proof.
  split_and!.
  - apply do_calls_erase_scope.
  - intros Hscope. rewrite do_calls_erase_scope, filter_app.
    assert (filter is_publish history = []) as ->; [|done].
    induction Hscope as [|c cs Hc _ IH]; [done|].
    rewrite filter_cons_False; [done|]. destruct Hc as [-> | ->]; simpl; auto.
  - intros Hnone. cbn [do_calls]. unfold mbind, M_bind. cbn [do_call].
    by rewrite publish_data_no_dedup.
Qed.

Lemma publish_data_ignores_scope_witness :
  do_calls plain_publisher ([Aenter; Aexit] ++ [PublishData "payload" ∅])
    empty_world
  = do_calls plain_publisher [PublishData "payload" ∅] empty_world
  ∧ do_calls plain_publisher [PublishData "payload" ∅] empty_world
    = (Ok tt, mkWorld (messages plain_publisher empty_world
                       ++ [mkCapturedMessage "payload" ∅])
                      (cache_state empty_world)).
Proof.
  destruct (publish_data_ignores_scope plain_publisher [Aenter; Aexit]
              "payload" ∅ empty_world) as (_ & Hscope & Hplain).
  split.
  - apply Hscope. repeat (apply Forall_cons; split; [auto|]). apply Forall_nil_2.
  - apply Hplain. reflexivity.
Defined.

(** C7: the sink is one list for the whole class.  Any two instances read
    the same [messages], whatever their topics, and what [publish_data] on
    one of them captures is appended to what the other reads. *)
Theorem messages_shared_across_instances {C S} `{!Cache C S}
    (p q : CapturingPublisher C) data attrs (w : World S) :
  messages q w = messages p w
  ∧ messages q (snd (publish_data p data attrs w))
    = messages p (snd (publish_data p data attrs w))
  ∧ (dedup_attribute p = None →
     messages q (snd (publish_data p data attrs w))
     = messages q w ++ [mkCapturedMessage data attrs])
  ∧ (∀ attribute kept s',
       dedup_attribute p = Some attribute →
       without_duplicates (cache p) attribute
         [mkCapturedMessage data attrs] (cache_state w) = (Ok kept, s') →
       messages q (snd (publish_data p data attrs w)) = messages q w ++ kept).
Proof.
  split_and!; [done..| |].
  - intros Hnone. by rewrite publish_data_no_dedup.
  - intros attribute kept s' Hsome Hcall.
    by rewrite (publish_data_dedup_Ok _ _ _ _ _ _ _ Hsome Hcall).
Qed.

Lemma messages_shared_across_instances_witness :
  messages (mkCapturingPublisher "other-topic" events_cache (Some "id"))
    (snd (publish_data plain_publisher "payload" ∅ empty_world))
  = messages (mkCapturingPublisher "other-topic" events_cache (Some "id"))
      empty_world
    ++ [mkCapturedMessage "payload" ∅].
Proof.
  apply (messages_shared_across_instances plain_publisher
           (mkCapturingPublisher "other-topic" events_cache (Some "id"))).
  reflexivity.
Defined.

(** ** The resolver functions *)

Section resolver_facts.
Context {C P K B : Type}.
Implicit Types (env : Env C P K B) (module : PyModule C P K B).

Lemma isinstance_BrokerModule_true module :
  isinstance_BrokerModule module = true ↔
  is_Some (mod_Publisher module) ∧ is_Some (mod_Consumer module)
  ∧ is_Some (mod_ephemeral_subscription module)
  ∧ is_Some (mod_break_topic module).
Proof.
  unfold isinstance_BrokerModule, present.
  destruct (mod_Publisher module), (mod_Consumer module),
    (mod_ephemeral_subscription module), (mod_break_topic module);
    simpl; split; try done; intros (H1 & H2 & H3 & H4);
    by (apply is_Some_None in H1 || apply is_Some_None in H2
        || apply is_Some_None in H3 || apply is_Some_None in H4).
Qed.

Lemma isinstance_CacheModule_true module :
  isinstance_CacheModule module = true ↔ is_Some (mod_Cache module).
Proof.
  unfold isinstance_CacheModule, present.
  destruct (mod_Cache module); split; try done.
Qed.

Lemma create_cache_rejects env topic module :
  import_module env (PREFECT_MESSAGING_CACHE env) = Ok module →
  isinstance_CacheModule module = false →
  create_cache env topic = Raise AssertionError.
Proof.
  intros Himport Hcheck. unfold create_cache, mbind, result_bind.
  by rewrite Himport, Hcheck.
Qed.

Lemma create_cache_Ok env topic c :
  create_cache env topic = Ok c →
  ∃ module Cache,
    import_module env (PREFECT_MESSAGING_CACHE env) = Ok module
    ∧ isinstance_CacheModule module = true
    ∧ mod_Cache module = Some Cache
    ∧ c = Cache (default "default" topic).
Proof.
  unfold create_cache, mbind, result_bind.
  destruct (import_module env _) as [module|]; [|done].
  destruct (isinstance_CacheModule module) eqn:Hcheck; [|done].
  cbn. destruct (mod_Cache module) as [Cache|] eqn:HCache; [|done].
  cbn. intros [= <-]. by exists module, Cache.
Qed.

Lemma create_publisher_rejects env topic cache deduplicate_by module :
  import_module env (PREFECT_MESSAGING_BROKER env) = Ok module →
  isinstance_BrokerModule module = false →
  is_Ok (create_publisher env topic cache deduplicate_by) = false
  ∧ (is_Some cache →
     create_publisher env topic cache deduplicate_by = Raise AssertionError).
Proof.
  intros Himport Hcheck. unfold create_publisher, mbind, result_bind.
  rewrite Himport, Hcheck. split.
  - by destruct (cache_or_create env cache).
  - by intros [c ->].
Qed.

Lemma create_publisher_Ok env topic cache deduplicate_by p :
  create_publisher env topic cache deduplicate_by = Ok p →
  ∃ module Publisher c,
    import_module env (PREFECT_MESSAGING_BROKER env) = Ok module
    ∧ isinstance_BrokerModule module = true
    ∧ mod_Publisher module = Some Publisher
    ∧ cache_or_create env cache = Ok c
    ∧ p = Publisher topic c deduplicate_by.
Proof.
  unfold create_publisher, mbind, result_bind.
  destruct (cache_or_create env cache) as [c|]; [|done].
  destruct (import_module env _) as [module|]; [|done].
  destruct (isinstance_BrokerModule module) eqn:Hcheck; [|done].
  cbn. destruct (mod_Publisher module) as [Publisher|] eqn:HP; [|done].
  cbn. intros [= <-]. by exists module, Publisher, c.
Qed.

Lemma create_consumer_rejects env topic kwargs module :
  import_module env (PREFECT_MESSAGING_BROKER env) = Ok module →
  isinstance_BrokerModule module = false →
  create_consumer env topic kwargs = Raise AssertionError.
Proof.
  intros Himport Hcheck. unfold create_consumer, mbind, result_bind.
  by rewrite Himport, Hcheck.
Qed.

Lemma create_consumer_Ok env topic kwargs k :
  create_consumer env topic kwargs = Ok k →
  ∃ module,
    import_module env (PREFECT_MESSAGING_BROKER env) = Ok module
    ∧ isinstance_BrokerModule module = true.
Proof.
  unfold create_consumer, mbind, result_bind.
  destruct (import_module env _) as [module|]; [|done].
  destruct (isinstance_BrokerModule module) eqn:Hcheck; [|done].
  intros _. by exists module.
Qed.

Lemma ephemeral_subscription_rejects env topic module {A}
    (body : gmap string PyVal → M B A) (b : B) :
  import_module env (PREFECT_MESSAGING_BROKER env) = Ok module →
  isinstance_BrokerModule module = false →
  ephemeral_subscription env topic body b = (Raise AssertionError, b).
Proof.
  intros Himport Hcheck.
  unfold ephemeral_subscription, mbind, M_bind, liftR.
  by rewrite Himport, Hcheck.
Qed.

Lemma ephemeral_subscription_resolved env topic module es {A}
    (body : gmap string PyVal → M B A) (b : B) :
  import_module env (PREFECT_MESSAGING_BROKER env) = Ok module →
  isinstance_BrokerModule module = true →
  mod_ephemeral_subscription module = Some es →
  ephemeral_subscription env topic body b = async_with (es topic) body b.
Proof.
  intros Himport Hcheck Hes.
  unfold ephemeral_subscription, mbind, M_bind, liftR.
  by rewrite Himport, Hcheck, Hes.
Qed.
End resolver_facts.

(** C9: every resolver entry point checks the module it resolved against
    the whole capability set of its protocol ([Cache] for a cache store;
    [Publisher], [Consumer], [ephemeral_subscription] and [break_topic]
    for a broker) and raises when a member is missing: [create_cache],
    [create_publisher] with a cache, [create_consumer] and the entry of
    [ephemeral_subscription] raise [AssertionError] (the body of the scope
    is not run and the broker is left as it was), and [create_publisher]
    never returns an object.  Conversely an entry point that returns an
    object resolved a module that passed the check; and a configured name
    that resolves to no module makes every entry point raise the import
    error. *)
Theorem resolver_checks_capabilities {C P K B} (env : Env C P K B) :
  (∀ module : PyModule C P K B,
     (isinstance_CacheModule module = true ↔ is_Some (mod_Cache module))
     ∧ (isinstance_BrokerModule module = true ↔
        is_Some (mod_Publisher module) ∧ is_Some (mod_Consumer module)
        ∧ is_Some (mod_ephemeral_subscription module)
        ∧ is_Some (mod_break_topic module)))
  ∧ (∀ module : PyModule C P K B,
       import_module env (PREFECT_MESSAGING_CACHE env) = Ok module →
       isinstance_CacheModule module = false →
       ∀ topic, create_cache env topic = Raise AssertionError)
  ∧ (∀ module : PyModule C P K B,
       import_module env (PREFECT_MESSAGING_BROKER env) = Ok module →
       isinstance_BrokerModule module = false →
       (∀ topic cache deduplicate_by,
          is_Ok (create_publisher env topic cache deduplicate_by) = false
          ∧ (is_Some cache →
             create_publisher env topic cache deduplicate_by
             = Raise AssertionError))
       ∧ (∀ topic kwargs, create_consumer env topic kwargs = Raise AssertionError)
       ∧ (∀ topic A (body : gmap string PyVal → M B A) b,
            ephemeral_subscription env topic body b = (Raise AssertionError, b)))
  ∧ (∀ topic c,
       create_cache env topic = Ok c →
       ∃ module,
         import_module env (PREFECT_MESSAGING_CACHE env) = Ok module
         ∧ isinstance_CacheModule module = true)
  ∧ (∀ topic cache deduplicate_by p,
       create_publisher env topic cache deduplicate_by = Ok p →
       ∃ module,
         import_module env (PREFECT_MESSAGING_BROKER env) = Ok module
         ∧ isinstance_BrokerModule module = true)
  ∧ (∀ topic kwargs k,
       create_consumer env topic kwargs = Ok k →
       ∃ module,
         import_module env (PREFECT_MESSAGING_BROKER env) = Ok module
         ∧ isinstance_BrokerModule module = true)
  ∧ (∀ e,
       import_module env (PREFECT_MESSAGING_CACHE env) = Raise e →
       ∀ topic, create_cache env topic = Raise e)
  ∧ (∀ e,
       import_module env (PREFECT_MESSAGING_BROKER env) = Raise e →
       (∀ topic cache deduplicate_by,
          is_Ok (create_publisher env topic cache deduplicate_by) = false)
       ∧ (∀ topic kwargs, create_consumer env topic kwargs = Raise e)
       ∧ (∀ topic A (body : gmap string PyVal → M B A) b,
            ephemeral_subscription env topic body b = (Raise e, b))).
Proof.
  split_and!.
  - intros module. split.
    + apply isinstance_CacheModule_true.
    + apply isinstance_BrokerModule_true.
  - intros module Himport Hcheck topic. by eapply create_cache_rejects.
  - intros module Himport Hcheck. split_and!.
    + intros. by eapply create_publisher_rejects.
    + intros. by eapply create_consumer_rejects.
    + intros. by eapply ephemeral_subscription_rejects.
  - intros topic c (module & _ & ? & ? & _)%create_cache_Ok. by exists module.
  - intros topic cache d p (module & _ & _ & ? & ? & _)%create_publisher_Ok.
    by exists module.
  - intros topic kwargs k. apply create_consumer_Ok.
  - intros e Himport topic. unfold create_cache, mbind, result_bind.
    by rewrite Himport.
  - intros e Himport. split_and!.
    + intros topic cache d. unfold create_publisher, mbind, result_bind.
      rewrite Himport. by destruct (cache_or_create env cache).
    + intros topic kwargs. unfold create_consumer, mbind, result_bind.
      by rewrite Himport.
    + intros topic A body b.
      unfold ephemeral_subscription, mbind, M_bind, liftR. by rewrite Himport.
Qed.

Lemma resolver_checks_capabilities_witness :
  create_cache misconfigured_cache_env (Some "events") = Raise AssertionError
  ∧ create_publisher misconfigured_broker_env "events" (Some events_cache) None
    = Raise AssertionError
  ∧ create_consumer misconfigured_broker_env "events" ∅ = Raise AssertionError
  ∧ ephemeral_subscription misconfigured_broker_env "events"
      (λ _, mret tt) (Backend.mkBroker ∅)
    = (Raise AssertionError, Backend.mkBroker ∅).
Proof.
  split_and!.
  - apply (resolver_checks_capabilities misconfigured_cache_env)
      with (module := module_with_publisher_only); reflexivity.
  - apply (resolver_checks_capabilities misconfigured_broker_env)
      with (module := module_without_break_topic); [reflexivity..|by eexists].
  - apply (resolver_checks_capabilities misconfigured_broker_env)
      with (module := module_without_break_topic); reflexivity.
  - apply (resolver_checks_capabilities misconfigured_broker_env)
      with (module := module_without_break_topic); reflexivity.
Defined.

(** ** Publishers that share a store *)

Lemma CapturingPublisher_init_default {C P K B} (env : Env C P K B)
    topic deduplicate_by (p : CapturingPublisher C) :
  CapturingPublisher_init env topic None deduplicate_by = Ok p →
  ∃ cache_module Cache,
    import_module env (PREFECT_MESSAGING_CACHE env) = Ok cache_module
    ∧ mod_Cache cache_module = Some Cache
    ∧ p = mkCapturingPublisher topic (Cache "default") deduplicate_by.
Proof.
  unfold CapturingPublisher_init, mbind, result_bind. cbn [cache_or_create].
  destruct (create_cache env None) as [c|] eqn:Hc; [|done].
  apply create_cache_Ok in Hc as (module & Cache & ? & _ & ? & ->).
  intros [= <-]. by exists module, Cache.
Qed.

(** Two publishers whose caches are on one topic: the second message with
    a value is dropped whichever publisher it goes through. *)
Lemma publish_twice_same_store
    (p1 p2 : CapturingPublisher TopicCache) (attribute value : string)
    (data1 : string) (attrs1 : gmap string string)
    (data2 : string) (attrs2 : gmap string string) (w : World Stores) :
  cache_topic (cache p1) = cache_topic (cache p2) →
  dedup_attribute p1 = Some attribute →
  dedup_attribute p2 = Some attribute →
  attrs1 !! attribute = Some value →
  attrs2 !! attribute = Some value →
  ∃ w',
    (publish_data p1 data1 attrs1;; publish_data p2 data2 attrs2) w = (Ok tt, w')
    ∧ messages p2 w'
      = messages p2 w
        ++ (if decide (value ∈ store_of (cache p1) (cache_state w))
            then [] else [mkCapturedMessage data1 attrs1]).
Proof.
  intros Htopic Hsome1 Hsome2 H1 H2.
  cbn. unfold CapturingPublisher_publish_data, mbind, M_bind.
  rewrite Hsome1, Hsome2. cbn. unfold on_cache, on_store, messages_extend, messages.
  cbn. unfold SeenStore.fingerprint. cbn. rewrite H1, H2.
  assert (∀ seen s, store_of (cache p2) (<[cache_topic (cache p1) := seen]> s) = seen)
    as Hstore by (intros; rewrite Htopic; apply store_of_insert).
  destruct (decide (value ∈ store_of (cache p1) (cache_state w)))
    as [Hin|Hout]; cbn.
  - rewrite Hstore. rewrite decide_True by done.
    eexists. split; [done|]. cbn. by rewrite !app_nil_r.
  - rewrite Hstore. rewrite decide_True by set_solver.
    eexists. split; [done|]. cbn. by rewrite !app_nil_r.
Qed.

(** C8: without a cache argument, [create_publisher] and
    [CapturingPublisher.__init__] build the cache with [create_cache()],
    that is for the topic ["default"] and not for the publisher's topic:
    with modules that pass the checks they return the publisher built on
    [module.Cache("default")], and a publisher they return was built so.
    With a store per topic, two capturing publishers created for different
    topics without a cache therefore read and write the one store of
    ["default"]: a value published through the first is a duplicate for
    the second. *)
Theorem default_cache_ignores_publisher_topic :
  (∀ {C P K B} (env : Env C P K B) topic deduplicate_by,
     create_cache env None = create_cache env (Some "default")
     ∧ (∀ p,
          create_publisher env topic None deduplicate_by = Ok p →
          ∃ cache_module broker_module Cache Publisher,
            import_module env (PREFECT_MESSAGING_CACHE env) = Ok cache_module
            ∧ mod_Cache cache_module = Some Cache
            ∧ import_module env (PREFECT_MESSAGING_BROKER env) = Ok broker_module
            ∧ mod_Publisher broker_module = Some Publisher
            ∧ p = Publisher topic (Cache "default") deduplicate_by)
     ∧ (∀ p,
          CapturingPublisher_init env topic None deduplicate_by = Ok p →
          ∃ cache_module Cache,
            import_module env (PREFECT_MESSAGING_CACHE env) = Ok cache_module
            ∧ mod_Cache cache_module = Some Cache
            ∧ p = mkCapturingPublisher topic (Cache "default") deduplicate_by)
     ∧ (∀ cache_module broker_module Cache Publisher,
          import_module env (PREFECT_MESSAGING_CACHE env) = Ok cache_module →
          mod_Cache cache_module = Some Cache →
          import_module env (PREFECT_MESSAGING_BROKER env) = Ok broker_module →
          isinstance_BrokerModule broker_module = true →
          mod_Publisher broker_module = Some Publisher →
          create_cache env None = Ok (Cache "default")
          ∧ create_publisher env topic None deduplicate_by
            = Ok (Publisher topic (Cache "default") deduplicate_by))
     ∧ (∀ cache_module Cache,
          import_module env (PREFECT_MESSAGING_CACHE env) = Ok cache_module →
          mod_Cache cache_module = Some Cache →
          CapturingPublisher_init env topic None deduplicate_by
          = Ok (mkCapturingPublisher topic (Cache "default") deduplicate_by)))
  ∧ (∀ {P K B} (env : Env TopicCache P K B) cache_module topic1 topic2
       (attribute value : string) (p1 p2 : CapturingPublisher TopicCache)
       (data1 : string) (attrs1 : gmap string string)
       (data2 : string) (attrs2 : gmap string string) (w : World Stores),
       import_module env (PREFECT_MESSAGING_CACHE env) = Ok cache_module →
       mod_Cache cache_module = Some (λ topic, Cache_init (Some topic)) →
       CapturingPublisher_init env topic1 None (Some attribute) = Ok p1 →
       CapturingPublisher_init env topic2 None (Some attribute) = Ok p2 →
       attribute ≠ EmptyString →
       attrs1 !! attribute = Some value →
       attrs2 !! attribute = Some value →
       cache p1 = cache p2
       ∧ cache_topic (cache p1) = Some "default"
       ∧ ∃ w',
           (publish_data p1 data1 attrs1;; publish_data p2 data2 attrs2) w
           = (Ok tt, w')
           ∧ messages p2 w'
             = messages p2 w
               ++ (if decide (value ∈ store_of (cache p1) (cache_state w))
                   then [] else [mkCapturedMessage data1 attrs1])).
Proof.
  split.
  - intros C P K B env topic deduplicate_by. split_and!.
    + reflexivity.
    + intros p (broker_module & Publisher & c & ? & _ & ? & Hc & ->)%create_publisher_Ok.
      cbn in Hc. apply create_cache_Ok in Hc as (cache_module & Cache & ? & _ & ? & ->).
      by exists cache_module, broker_module, Cache, Publisher.
    + intros p. apply CapturingPublisher_init_default.
    + intros cache_module broker_module Cache Publisher
        Hcache HCache Hbroker Hcheck HPublisher.
      assert (create_cache env None = Ok (Cache "default")) as Hcreate.
      { unfold create_cache, mbind, result_bind. rewrite Hcache.
        unfold isinstance_CacheModule. by rewrite HCache. }
      split; [exact Hcreate|].
      unfold create_publisher, mbind, result_bind. cbn [cache_or_create].
      by rewrite Hcreate, Hbroker, Hcheck, HPublisher.
    + intros cache_module Cache Hcache HCache.
      unfold CapturingPublisher_init, mbind, result_bind.
      cbn [cache_or_create]. unfold create_cache, mbind, result_bind.
      rewrite Hcache. unfold isinstance_CacheModule. by rewrite HCache.
  - intros P K B env cache_module topic1 topic2 attribute value p1 p2
      data1 attrs1 data2 attrs2 w Himport HCache Hp1 Hp2 Hne H1 H2.
    apply CapturingPublisher_init_default in Hp1 as (m1 & Cache1 & Hm1 & HC1 & ->).
    apply CapturingPublisher_init_default in Hp2 as (m2 & Cache2 & Hm2 & HC2 & ->).
    rewrite Himport in Hm1, Hm2. injection Hm1 as <-. injection Hm2 as <-.
    rewrite HCache in HC1, HC2. injection HC1 as <-. injection HC2 as <-.
    split_and!; [done..|].
    apply (publish_twice_same_store _ _ attribute value); [done| | |done..].
    + by apply dedup_attribute_Some.
    + by apply dedup_attribute_Some.
Qed.

Lemma default_cache_ignores_publisher_topic_witness :
  create_publisher memory_env "flow-runs" None (Some "id")
  = Ok (mkCapturingPublisher "flow-runs" (Cache_init (Some "default")) (Some "id"))
  ∧ create_publisher memory_env "task-runs" None (Some "id")
    = Ok (mkCapturingPublisher "task-runs" (Cache_init (Some "default")) (Some "id"))
  ∧ CapturingPublisher_init memory_env "flow-runs" None (Some "id")
    = Ok (mkCapturingPublisher "flow-runs" (Cache_init (Some "default")) (Some "id"))
  ∧ ∃ w',
      (publish_data (mkCapturingPublisher "flow-runs" (Cache_init (Some "default"))
                       (Some "id")) "first" {["id" := "abc"]};;
       publish_data (mkCapturingPublisher "task-runs" (Cache_init (Some "default"))
                       (Some "id")) "second" {["id" := "abc"]}) empty_world
      = (Ok tt, w')
      ∧ CapturingPublisher_messages w'
        = [mkCapturedMessage "first" {["id" := "abc"]}].
Proof.
  destruct default_cache_ignores_publisher_topic as [Hbuilt Hshared].
  split_and!.
  - destruct (Hbuilt _ _ _ _ memory_env "flow-runs" (Some "id"))
      as (_ & _ & _ & Hcreate & _).
    apply (Hcreate memory_module memory_module
             (λ topic, Cache_init (Some topic)) mkCapturingPublisher);
      reflexivity.
  - destruct (Hbuilt _ _ _ _ memory_env "task-runs" (Some "id"))
      as (_ & _ & _ & Hcreate & _).
    apply (Hcreate memory_module memory_module
             (λ topic, Cache_init (Some topic)) mkCapturingPublisher);
      reflexivity.
  - destruct (Hbuilt _ _ _ _ memory_env "flow-runs" (Some "id"))
      as (_ & _ & _ & _ & Hinit).
    apply (Hinit memory_module (λ topic, Cache_init (Some topic)));
      reflexivity.
  - destruct (Hshared _ _ _ memory_env memory_module "flow-runs" "task-runs"
                "id" "abc"
                (mkCapturingPublisher "flow-runs" (Cache_init (Some "default")) (Some "id"))
                (mkCapturingPublisher "task-runs" (Cache_init (Some "default")) (Some "id"))
                "first" {["id" := "abc"]} "second" {["id" := "abc"]} empty_world)
      as (_ & _ & w' & Hrun & Hmessages);
      [reflexivity | reflexivity | reflexivity | reflexivity | discriminate
      | reflexivity | reflexivity |].
    exists w'. split; [exact Hrun | exact Hmessages].
Defined.

(** ** The ephemeral subscription *)

(** C10: with a backend whose [ephemeral_subscription] creates a binding
    on entry and deletes it on exit, the scope
    [async with ephemeral_subscription(topic)] creates a binding under a
    name no binding had, hands the body the parameters naming it, and
    deletes it when the body is left, by returning or by raising; an
    exception of the body still reaches the caller.  A body that leaves the
    bindings as it found them leaves the broker as it was before the
    scope. *)
Theorem ephemeral_subscription_removes_binding {C P K A}
    (env : Env C P K Backend.Broker) (module : PyModule C P K Backend.Broker)
    (topic : string) (body : gmap string PyVal → M Backend.Broker A)
    (b : Backend.Broker) :
  import_module env (PREFECT_MESSAGING_BROKER env) = Ok module →
  isinstance_BrokerModule module = true →
  mod_ephemeral_subscription module = Some Backend.ephemeral_subscription →
  let name := fresh (dom (Backend.bindings b)) in
  let kwargs : gmap string PyVal :=
    <["subscription" := VStr name]> {["topic" := VStr topic]} in
  let entered := Backend.mkBroker (<[name := topic]> (Backend.bindings b)) in
  Backend.bindings b !! name = None
  ∧ Backend.bindings entered !! name = Some topic
  ∧ ephemeral_subscription env topic body b
    = (match fst (body kwargs entered) with
       | Ok a => Ok (Some a)
       | Raise e => Raise e
       end,
       Backend.mkBroker
         (delete name (Backend.bindings (snd (body kwargs entered)))))
  ∧ Backend.bindings (snd (ephemeral_subscription env topic body b)) !! name
    = None
  ∧ (Backend.bindings (snd (body kwargs entered)) = Backend.bindings entered →
     snd (ephemeral_subscription env topic body b) = b).
Proof.
  intros Himport Hcheck Hes name kwargs entered.
  assert (Backend.bindings b !! name = None) as Hfresh.
  { apply not_elem_of_dom. apply is_fresh. }
  assert (ephemeral_subscription env topic body b
          = (match fst (body kwargs entered) with
             | Ok a => Ok (Some a)
             | Raise e => Raise e
             end,
             Backend.mkBroker
               (delete name (Backend.bindings (snd (body kwargs entered))))))
    as Hrun.
  { rewrite (ephemeral_subscription_resolved _ _ _ _ _ _ Himport Hcheck Hes).
    unfold async_with. cbn. fold name. fold kwargs. fold entered.
    destruct (body kwargs entered) as [[a|e] b2]; cbn.
    - reflexivity.
    - reflexivity. }
  split_and!.
  - done.
  - apply lookup_insert_eq.
  - done.
  - rewrite Hrun. cbn. apply lookup_delete_eq.
  - intros Hsame. rewrite Hrun. cbn. rewrite Hsame. cbn.
    rewrite delete_insert_id by done. by destruct b.
Qed.

Lemma ephemeral_subscription_removes_binding_witness :
  fst (ephemeral_subscription memory_env "events"
         (λ _, raise (A := unit) (ValueError "boom")) (Backend.mkBroker ∅))
    = Raise (ValueError "boom")
  ∧ snd (ephemeral_subscription memory_env "events"
           (λ _, raise (A := unit) (ValueError "boom")) (Backend.mkBroker ∅))
    = Backend.mkBroker ∅.
Proof.
  destruct (ephemeral_subscription_removes_binding memory_env memory_module
              "events" (λ _, raise (A := unit) (ValueError "boom"))
              (Backend.mkBroker ∅) eq_refl eq_refl eq_refl)
    as (_ & _ & Hrun & _ & Hsame).
  split.
  - rewrite Hrun. reflexivity.
  - apply Hsame. reflexivity.
Defined.

(** ** The consumer loop *)

Section consumer_facts.
Context {Msg H : Type}.
Import ConsumerLoop.
Implicit Types (handler : @MessageHandler Msg H) (h : H).

Lemma steps_STOPPED fuel handler outcome u a h :
  steps fuel handler (mkState (STOPPED outcome) u a h)
  = Some (outcome, mkState (STOPPED outcome) u a h).
Proof. by destruct fuel. Qed.

(** From [RUNNING], messages the handler returns from are acknowledged one
    after the other; the stop signal then ends the run. *)
Lemma steps_until_stop handler before m after acked0 h h1 h2 ack fuel :
  handles handler before h = Some h1 →
  handler m h1 = (Raise (StopConsumer ack), h2) →
  length before + 2 ≤ fuel →
  steps fuel handler (mkState RUNNING (before ++ m :: after) acked0 h)
  = Some (Ok tt,
          mkState (STOPPED (Ok tt))
            (if ack then after else m :: after)
            (acked0 ++ before ++ (if ack then [m] else [])) h2).
Proof.
  revert acked0 h fuel.
  induction before as [|m0 before IH]; intros acked0 h fuel Hhandles Hstop Hfuel.
  - simpl in Hhandles. injection Hhandles as ->.
    destruct fuel as [|[|fuel]]; [simpl in Hfuel; lia..|].
    cbn. rewrite Hstop. cbn.
    destruct ack; cbn; rewrite steps_STOPPED, ?app_nil_r; done.
  - simpl in Hhandles.
    destruct (handler m0 h) as [[[]|e] h'] eqn:Hm0; [|done].
    destruct fuel as [|fuel]; [simpl in Hfuel; lia|].
    cbn. rewrite Hm0. cbn.
    rewrite (IH (acked0 ++ [m0]) h' fuel Hhandles Hstop) by (simpl in Hfuel; lia).
    by rewrite <- app_assoc.
Qed.
End consumer_facts.

(** C6: when the handler raises [StopConsumer(ack)] on a message, after
    returning normally from the messages before it, [run] returns, and
    returns normally: with [ack] true the message in flight has been
    acknowledged, with [ack] false it is left unacknowledged, first in
    line for redelivery. *)
Theorem run_returns_on_StopConsumer {Msg H}
    (handler : @ConsumerLoop.MessageHandler Msg H)
    (before : list Msg) (m : Msg) (after : list Msg) (h h1 h2 : H)
    (ack : bool) (fuel : nat) :
  ConsumerLoop.handles handler before h = Some h1 →
  handler m h1 = (Raise (StopConsumer ack), h2) →
  length before + 2 ≤ fuel →
  ConsumerLoop.run fuel handler (before ++ m :: after) h
  = Some (Ok tt,
          ConsumerLoop.mkState (ConsumerLoop.STOPPED (Ok tt))
            (if ack then after else m :: after)
            (before ++ (if ack then [m] else [])) h2).
Proof.
  intros Hhandles Hstop Hfuel. unfold ConsumerLoop.run.
  by rewrite (steps_until_stop handler before m after [] h h1 h2 ack fuel).
Qed.

Lemma run_returns_on_StopConsumer_witness :
  ConsumerLoop.run 3 (counting_handler true)
    ([sample_message "work" "1"] ++ sample_message "stop" "2"
       :: [sample_message "later" "3"]) 0
  = Some (Ok tt,
          ConsumerLoop.mkState (ConsumerLoop.STOPPED (Ok tt))
            [sample_message "later" "3"]
            ([sample_message "work" "1"] ++ [sample_message "stop" "2"]) 1)
  ∧ ConsumerLoop.run 3 (counting_handler false)
      ([sample_message "work" "1"] ++ sample_message "stop" "2"
         :: [sample_message "later" "3"]) 0
    = Some (Ok tt,
            ConsumerLoop.mkState (ConsumerLoop.STOPPED (Ok tt))
              (sample_message "stop" "2" :: [sample_message "later" "3"])
              ([sample_message "work" "1"] ++ []) 1).
Proof.
  split.
  - apply (run_returns_on_StopConsumer (counting_handler true)
             [sample_message "work" "1"] (sample_message "stop" "2")
             [sample_message "later" "3"] 0 1 1 true 3);
      [reflexivity | reflexivity | simpl; lia].
  - apply (run_returns_on_StopConsumer (counting_handler false)
             [sample_message "work" "1"] (sample_message "stop" "2")
             [sample_message "later" "3"] 0 1 1 false 3);
      [reflexivity | reflexivity | simpl; lia].
Defined.

(** * Further properties of the module *)

(** ** [create_consumer] *)

Section create_consumer_facts.
Context {C P K B : Type}.
Implicit Types (env : Env C P K B) (module : PyModule C P K B).

(** X1: for every broker other than ["prefect_redis.messaging"],
    [create_consumer] builds the consumer from the topic alone: the
    keyword arguments have no effect on the outcome, and with a module
    that passes the check the result is [module.Consumer(topic)]. *)
Theorem create_consumer_ignores_kwargs env topic (kwargs : gmap string PyVal) :
  PREFECT_MESSAGING_BROKER env ≠ "prefect_redis.messaging" →
  create_consumer env topic kwargs = create_consumer env topic ∅
  ∧ (∀ module Consumer,
       import_module env (PREFECT_MESSAGING_BROKER env) = Ok module →
       isinstance_BrokerModule module = true →
       mod_Consumer module = Some Consumer →
       create_consumer env topic kwargs = Ok (Consumer [VStr topic] ∅)).
Proof.
  intros Hother.
  assert (String.eqb (PREFECT_MESSAGING_BROKER env) "prefect_redis.messaging"
          = false) as Heqb by (by apply String.eqb_neq).
  split.
  - unfold create_consumer. by rewrite Heqb.
  - intros module Consumer Himport Hcheck HConsumer.
    unfold create_consumer, mbind, result_bind.
    by rewrite Himport, Hcheck, Heqb, HConsumer.
Qed.

(** X2: for the broker ["prefect_redis.messaging"], [create_consumer]
    calls [module.Consumer] with keywords only: [name], [stream] and
    [group] are always passed, each with the caller's value when given and
    the topic otherwise; [should_process_pending_messages] is passed
    exactly when the caller gave it; every other keyword of the caller is
    dropped. *)
Theorem create_consumer_redis_keywords env module Consumer topic
    (kwargs : gmap string PyVal) :
  PREFECT_MESSAGING_BROKER env = "prefect_redis.messaging" →
  import_module env (PREFECT_MESSAGING_BROKER env) = Ok module →
  isinstance_BrokerModule module = true →
  mod_Consumer module = Some Consumer →
  ∃ redis_kwargs : gmap string PyVal,
    create_consumer env topic kwargs = Ok (Consumer [] redis_kwargs)
    ∧ redis_kwargs !! "name" = Some (default (VStr topic) (kwargs !! "name"))
    ∧ redis_kwargs !! "stream" = Some (default (VStr topic) (kwargs !! "stream"))
    ∧ redis_kwargs !! "group" = Some (default (VStr topic) (kwargs !! "group"))
    ∧ redis_kwargs !! "should_process_pending_messages"
      = kwargs !! "should_process_pending_messages"
    ∧ (∀ key,
         key ∉ ["name"; "stream"; "group"; "should_process_pending_messages"] →
         redis_kwargs !! key = None).
Proof.
  intros Hredis Himport Hcheck HConsumer.
  unfold create_consumer, mbind, result_bind.
  rewrite Himport, Hcheck. cbn [assert].
  rewrite (proj2 (String.eqb_eq _ _) Hredis).
  unfold pop. rewrite HConsumer. cbn [getattr].
  rewrite !lookup_delete_ne by done.
  set (base := <["group" := _]> (<["stream" := _]> (<["name" := _]> ∅))).
  assert (base !! "name" = Some (default (VStr topic) (kwargs !! "name"))
          ∧ base !! "stream" = Some (default (VStr topic) (kwargs !! "stream"))
          ∧ base !! "group" = Some (default (VStr topic) (kwargs !! "group"))
          ∧ base !! "should_process_pending_messages" = None
          ∧ (∀ key, key ∉ ["name"; "stream"; "group";
                            "should_process_pending_messages"] →
                    base !! key = None))
    as (Hname & Hstream & Hgroup & Hpending & Hother).
  { subst base. split_and!.
    - by rewrite lookup_insert_ne, lookup_insert_ne, lookup_insert_eq.
    - by rewrite lookup_insert_ne, lookup_insert_eq.
    - by rewrite lookup_insert_eq.
    - by rewrite !lookup_insert_ne.
    - intros key Hkey. rewrite !not_elem_of_cons in Hkey.
      destruct Hkey as (? & ? & ? & ? & _).
      by rewrite !lookup_insert_ne. }
  destruct (kwargs !! "should_process_pending_messages") as [v|] eqn:Hv.
  - eexists. split; [reflexivity|]. split_and!.
    + by rewrite lookup_insert_ne.
    + by rewrite lookup_insert_ne.
    + by rewrite lookup_insert_ne.
    + by rewrite lookup_insert_eq.
    + intros key Hkey. rewrite lookup_insert_ne; [by apply Hother|].
      rewrite !not_elem_of_cons in Hkey. naive_solver.
  - eexists. split; [reflexivity|]. by split_and!.
Qed.
End create_consumer_facts.

Lemma create_consumer_ignores_kwargs_witness :
  create_consumer memory_env "events" {["name" := VStr "other"]}
  = Ok ([VStr "events"], ∅).
Proof.
  apply (create_consumer_ignores_kwargs memory_env "events"
           {["name" := VStr "other"]})
    with (module := memory_module); [discriminate | reflexivity..].
Defined.

Lemma create_consumer_redis_keywords_witness :
  ∃ redis_kwargs : gmap string PyVal,
    create_consumer redis_env "events"
      (<["group" := VStr "workers"]> {["colour" := VStr "red"]})
    = Ok ([], redis_kwargs)
    ∧ redis_kwargs !! "name" = Some (VStr "events")
    ∧ redis_kwargs !! "group" = Some (VStr "workers")
    ∧ redis_kwargs !! "colour" = None.
Proof.
  destruct (create_consumer_redis_keywords redis_env memory_module pair "events"
              (<["group" := VStr "workers"]> {["colour" := VStr "red"]}))
    as (redis_kwargs & Hcall & Hname & _ & Hgroup & _ & Hother);
    [reflexivity..|].
  exists redis_kwargs. split_and!; [exact Hcall | exact Hname | exact Hgroup |].
  apply Hother. rewrite !not_elem_of_cons. split_and!; [discriminate..|].
  apply not_elem_of_nil.
Defined.

(** ** More on publishers *)

Section sink_facts.
Context {C S : Type} `{!Cache C S}.
Implicit Types (p : CapturingPublisher C) (w : World S).

Lemma publish_data_sink p data attrs w :
  ∃ captured,
    CapturingPublisher_messages (snd (publish_data p data attrs w))
    = CapturingPublisher_messages w ++ captured.
Proof.
  cbn. unfold CapturingPublisher_publish_data, mbind, M_bind.
  destruct (dedup_attribute p) as [attribute|].
  - unfold on_cache.
    destruct (without_duplicates _ _ _ _) as [[kept|e] s'].
    + by exists kept.
    + exists []. by rewrite app_nil_r.
  - by eexists.
Qed.

Lemma do_call_sink p c w :
  CapturingPublisher_messages w
    `prefix_of` CapturingPublisher_messages (snd (do_call p c w)).
Proof.
  destruct c as [| |data attrs]; [by exists []; rewrite app_nil_r..|].
  destruct (publish_data_sink p data attrs w) as [captured Hsink].
  by exists captured.
Qed.

(** X3: the sink only grows.  Over any sequence of calls on any
    publishers, with any cache and whether or not a call raises, the
    messages captured before are a prefix of the messages captured after:
    none is removed, replaced or reordered. *)
Theorem sink_only_grows (cs : list (CapturingPublisher C * call)) w :
  CapturingPublisher_messages w
    `prefix_of` CapturingPublisher_messages (snd (do_calls_on cs w)).
Proof.
  revert w. induction cs as [|[p c] cs IH]; intros w; [done|].
  cbn [do_calls_on]. unfold mbind, M_bind.
  pose proof (do_call_sink p c w) as Hstep.
  destruct (do_call p c w) as [[[]|e] w1]; [|done].
  etrans; [exact Hstep|]. apply IH.
Qed.

(** X4: a publisher without a dedup attribute never touches its cache and
    never raises: a sequence of calls on it appends the published messages
    to the sink in the order of the calls and leaves the state of the
    cache as it was. *)
Theorem publish_without_dedup p (cs : list call) w :
  dedup_attribute p = None →
  do_calls p cs w
  = (Ok tt, mkWorld (CapturingPublisher_messages w ++ published cs) (cache_state w)).
Proof.
  intros Hnone. revert w.
  induction cs as [|c cs IH]; intros w.
  - cbn. rewrite app_nil_r. by destruct w.
  - cbn [do_calls]. unfold mbind, M_bind.
    destruct c as [| |data attrs]; cbn [do_call].
    + cbn. apply IH.
    + cbn. apply IH.
    + rewrite publish_data_no_dedup by done. rewrite IH. cbn.
      unfold messages. by rewrite <- app_assoc.
Qed.

Lemma publish_data_raise_keeps_sink p data attrs w e :
  fst (publish_data p data attrs w) = Raise e →
  CapturingPublisher_messages (snd (publish_data p data attrs w))
  = CapturingPublisher_messages w.
Proof.
  cbn. unfold CapturingPublisher_publish_data, mbind, M_bind.
  destruct (dedup_attribute p) as [attribute|]; [|done].
  unfold on_cache.
  by destruct (without_duplicates _ _ _ _) as [[kept|e'] s'].
Qed.

(** X5: [publish_data] raises exactly when a dedup attribute is configured
    and the cache raises on the one-message batch; it then raises the
    exception of the cache and captures nothing. *)
Theorem publish_data_raises_with_cache p data attrs w e :
  (fst (publish_data p data attrs w) = Raise e ↔
   ∃ attribute,
     dedup_attribute p = Some attribute
     ∧ fst (without_duplicates (cache p) attribute
              [mkCapturedMessage data attrs] (cache_state w)) = Raise e)
  ∧ (fst (publish_data p data attrs w) = Raise e →
     CapturingPublisher_messages (snd (publish_data p data attrs w))
     = CapturingPublisher_messages w).
Proof.
  split; [|apply publish_data_raise_keeps_sink].
  cbn. unfold CapturingPublisher_publish_data, mbind, M_bind.
  destruct (dedup_attribute p) as [attribute|].
  - unfold on_cache.
    destruct (without_duplicates _ _ _ _) as [[kept|e'] s'] eqn:Hcall; cbn.
    + split; [done|]. intros (? & [= <-] & Hr). by rewrite Hcall in Hr.
    + split.
      * intros [= ->]. exists attribute. by rewrite Hcall.
      * intros (? & [= <-] & Hr). rewrite Hcall in Hr. cbn in Hr. congruence.
  - cbn. split; [done|]. by intros (? & ? & _).
Qed.
End sink_facts.

Lemma publish_without_dedup_witness :
  do_calls plain_publisher
    [Aenter; PublishData "a" ∅; PublishData "b" ∅; Aexit] empty_world
  = (Ok tt,
     mkWorld (CapturingPublisher_messages empty_world
              ++ published [Aenter; PublishData "a" ∅; PublishData "b" ∅; Aexit])
             (cache_state empty_world)).
Proof.
  apply (publish_without_dedup plain_publisher
           [Aenter; PublishData "a" ∅; PublishData "b" ∅; Aexit] empty_world).
  reflexivity.
Defined.

Lemma publish_data_raises_with_cache_witness :
  fst (publish_data dedup_publisher "payload" ∅ empty_world)
    = Raise (KeyError "id")
  ∧ CapturingPublisher_messages
      (snd (publish_data dedup_publisher "payload" ∅ empty_world))
    = CapturingPublisher_messages empty_world.
Proof.
  destruct (publish_data_raises_with_cache dedup_publisher "payload" ∅
              empty_world (KeyError "id")) as [[_ Hraises] Hsink].
  assert (fst (publish_data dedup_publisher "payload" ∅ empty_world)
          = Raise (KeyError "id")) as Hraise.
  { apply Hraises. exists "id". split; reflexivity. }
  split; [exact Hraise | exact (Hsink Hraise)].
Defined.

(** * Properties of the orchestration client *)

(** ** The scope of the synchronous client *)

Section sync_scope_facts.
Import Orchestration.
Context {X : Type}.
Variable client_enter : X → outcome unit * X.
Variable client_exit : option exception → X → outcome unit * X.
Implicit Types (self : SyncPrefectClient X) (ops : list scope_op).

#[local] Abbreviation steps := (scope_steps client_enter client_exit).

Lemma scope_steps_app self ops1 ops2 :
  steps self (ops1 ++ ops2)
  = match steps self ops1 with
    | (Return _, self') => steps self' ops2
    | (Raised e, self') => (Raised e, self')
    end.
Proof.
  revert self. induction ops1 as [|op ops1 IH]; intros self; [done|].
  simpl. destruct (scope_step _ _ self op) as [[[]|e] self']; [apply IH|done].
Qed.

(** Inside an open scope, nested blocks only move the counter. *)
Lemma scope_steps_nested ops (depth : nat) (stack : Z) (x : X) :
  (Z.of_nat depth < stack)%Z →
  nested depth ops = true →
  steps (mkSync false true stack x) ops
  = (Return tt,
     mkSync false true (stack - Z.of_nat depth + Z.of_nat (open_blocks depth ops)) x).
Proof.
  revert depth stack.
  induction ops as [|[|exc_info] ops IH]; intros depth stack Hlt Hnested.
  - simpl. do 2 f_equal. lia.
  - simpl in *. rewrite (IH (Datatypes.S depth)) by (done || lia).
    do 2 f_equal. lia.
  - destruct depth as [|depth]; [done|]. simpl in *.
    unfold SyncPrefectClient_exit. simpl.
    destruct (Z.ltb_spec 0 (stack - 1)) as [_|Hle]; [|lia].
    rewrite (IH depth) by (done || lia). do 2 f_equal. lia.
Qed.

Lemma closed_steps self ops :
  _closed self = true → _closed (snd (steps self ops)) = true.
Proof.
  revert self. induction ops as [|op ops IH]; intros self Hclosed; [done|].
  simpl. destruct op as [|exc_info]; simpl.
  - unfold SyncPrefectClient_enter. by rewrite Hclosed.
  - unfold SyncPrefectClient_exit.
    destruct (0 <? _context_stack self - 1)%Z.
    + apply IH. done.
    + destruct (client_exit exc_info (_client self)) as [[[]|e] x]; [|done].
      by apply IH.
Qed.
End sync_scope_facts.

(** X6: a closed [SyncPrefectClient] cannot be used again: [__enter__]
    raises [RuntimeError] without touching the client or its [httpx]
    client, and whatever is entered or left afterwards the client stays
    closed. *)
Theorem sync_client_closed_for_good {X}
    (client_enter : X → Orchestration.outcome unit * X)
    (client_exit : option Orchestration.exception → X
                   → Orchestration.outcome unit * X)
    (self : Orchestration.SyncPrefectClient X)
    (ops : list Orchestration.scope_op) :
  Orchestration._closed self = true →
  (∃ msg, Orchestration.SyncPrefectClient_enter client_enter self
          = (Orchestration.Raised (Orchestration.RuntimeError msg), self))
  ∧ Orchestration._closed
      (snd (Orchestration.scope_steps client_enter client_exit self ops)) = true.
Proof.
  intros Hclosed. split; [|by apply closed_steps].
  unfold Orchestration.SyncPrefectClient_enter. rewrite Hclosed. by eexists.
Qed.

(** X7: [with] blocks on a new [SyncPrefectClient] may be nested.  When the
    outermost block encloses properly nested blocks and the [httpx] client
    can be entered, every [__enter__] and every inner [__exit__] returns,
    the [httpx] client is entered once, by the first [__enter__], and left
    once, by the last [__exit__], with the exception information of that
    exit; the client ends up closed, and entering it again raises
    [RuntimeError]. *)
Theorem sync_client_nested_scopes {X}
    (client_enter : X → Orchestration.outcome unit * X)
    (client_exit : option Orchestration.exception → X
                   → Orchestration.outcome unit * X)
    (x0 x1 : X) (inner : list Orchestration.scope_op)
    (exc_info : option Orchestration.exception) :
  client_enter x0 = (Orchestration.Return tt, x1) →
  Orchestration.nested 0 inner = true →
  Orchestration.open_blocks 0 inner = 0 →
  let final :=
    Orchestration.mkSync true true 0 (snd (client_exit exc_info x1)) in
  Orchestration.scope_steps client_enter client_exit
    (Orchestration.SyncPrefectClient_new x0)
    (Orchestration.Enter :: inner)
  = (Orchestration.Return tt, Orchestration.mkSync false true 1 x1)
  ∧ Orchestration.scope_steps client_enter client_exit
      (Orchestration.SyncPrefectClient_new x0)
      (Orchestration.Enter :: inner ++ [Orchestration.Exit exc_info])
    = (fst (client_exit exc_info x1), final)
  ∧ ∃ msg, Orchestration.SyncPrefectClient_enter client_enter final
           = (Orchestration.Raised (Orchestration.RuntimeError msg), final).
Proof.
  intros Henter Hnested Hopen final.
  assert (Orchestration.scope_steps client_enter client_exit
            (Orchestration.SyncPrefectClient_new x0)
            (Orchestration.Enter :: inner)
          = (Orchestration.Return tt, Orchestration.mkSync false true 1 x1))
    as Hinner.
  { simpl. unfold Orchestration.SyncPrefectClient_enter. simpl. rewrite Henter.
    rewrite (scope_steps_nested _ _ inner 0 1 x1) by (done || lia).
    rewrite Hopen. done. }
  split_and!.
  - exact Hinner.
  - rewrite app_comm_cons, scope_steps_app, Hinner. simpl.
    unfold Orchestration.SyncPrefectClient_exit. simpl.
    by destruct (client_exit exc_info x1) as [[[]|e] x2].
  - by eexists.
Qed.

(** X8: when the first [__enter__] of a [SyncPrefectClient] fails inside
    the [httpx] client, the exception is passed on with the counter of
    open blocks already raised; a later [with] block, although it enters
    and returns normally, therefore finds the counter above zero at its
    [__exit__] and leaves the client open, without leaving the [httpx]
    client. *)
Theorem sync_client_failed_enter_leaks {X}
    (client_enter : X → Orchestration.outcome unit * X)
    (client_exit : option Orchestration.exception → X
                   → Orchestration.outcome unit * X)
    (x0 x1 x2 : X) (e : Orchestration.exception)
    (inner : list Orchestration.scope_op)
    (exc_info : option Orchestration.exception) :
  client_enter x0 = (Orchestration.Raised e, x1) →
  client_enter x1 = (Orchestration.Return tt, x2) →
  Orchestration.nested 0 inner = true →
  Orchestration.open_blocks 0 inner = 0 →
  Orchestration.SyncPrefectClient_enter client_enter
    (Orchestration.SyncPrefectClient_new x0)
  = (Orchestration.Raised e, Orchestration.mkSync false false 1 x1)
  ∧ Orchestration.scope_steps client_enter client_exit
      (Orchestration.mkSync false false 1 x1)
      (Orchestration.Enter :: inner ++ [Orchestration.Exit exc_info])
    = (Orchestration.Return tt, Orchestration.mkSync false true 1 x2).
Proof.
  intros Hfail Henter Hnested Hopen. split.
  - unfold Orchestration.SyncPrefectClient_enter. simpl. by rewrite Hfail.
  - rewrite app_comm_cons, scope_steps_app. simpl.
    unfold Orchestration.SyncPrefectClient_enter. simpl. rewrite Henter.
    rewrite (scope_steps_nested _ _ inner 0 2 x2) by (done || lia).
    rewrite Hopen. simpl. unfold Orchestration.SyncPrefectClient_exit. simpl.
    done.
Qed.

Lemma sync_client_closed_for_good_witness :
  Orchestration._closed
    (snd (Orchestration.scope_steps logging_enter logging_exit
            (Orchestration.mkSync true true 0 ["enter"; "exit"])
            [Orchestration.Exit None; Orchestration.Enter])) = true.
Proof.
  apply (sync_client_closed_for_good logging_enter logging_exit
           (Orchestration.mkSync true true 0 ["enter"; "exit"])
           [Orchestration.Exit None; Orchestration.Enter]).
  reflexivity.
Defined.

Lemma sync_client_nested_scopes_witness :
  Orchestration.scope_steps logging_enter logging_exit
    (Orchestration.SyncPrefectClient_new [])
    (Orchestration.Enter
       :: [Orchestration.Enter; Orchestration.Exit None; Orchestration.Enter;
           Orchestration.Enter; Orchestration.Exit None; Orchestration.Exit None]
       ++ [Orchestration.Exit None])
  = (fst (logging_exit None ["enter"]),
     Orchestration.mkSync true true 0 (snd (logging_exit None ["enter"]))).
Proof.
  apply (sync_client_nested_scopes logging_enter logging_exit [] ["enter"]
           [Orchestration.Enter; Orchestration.Exit None; Orchestration.Enter;
            Orchestration.Enter; Orchestration.Exit None; Orchestration.Exit None]
           None); reflexivity.
Defined.

Lemma sync_client_failed_enter_leaks_witness :
  Orchestration.scope_steps flaky_enter logging_exit
    (Orchestration.mkSync false false 1 ["failed"])
    (Orchestration.Enter :: [] ++ [Orchestration.Exit None])
  = (Orchestration.Return tt,
     Orchestration.mkSync false true 1 ["failed"; "enter"]).
Proof.
  apply (sync_client_failed_enter_leaks flaky_enter logging_exit
           [] ["failed"] ["failed"; "enter"]
           (Orchestration.OtherException "connect") [] None); reflexivity.
Defined.

(** ** The scope of the asynchronous client *)

Section async_scope_facts.
Import Orchestration.
Context {X Loop App Lifespan : Type}.
Variable running_loop : X → Loop.
Variable exit_stack_aenter : X → outcome unit * X.
Variable enter_lifespan : App → X → outcome Lifespan * X.
Variable enter_client : X → outcome unit * X.
Variable exit_stack_aexit : option exception → X → outcome (option bool) * X.

#[local] Abbreviation asteps :=
  (async_scope_steps running_loop exit_stack_aenter enter_lifespan
     enter_client exit_stack_aexit).

Lemma async_scope_steps_app (self : PrefectClient X Loop App Lifespan) ops1 ops2 :
  asteps self (ops1 ++ ops2)
  = match asteps self ops1 with
    | (Return _, self') => asteps self' ops2
    | (Raised e, self') => (Raised e, self')
    end.
Proof.
  revert self. induction ops1 as [|op ops1 IH]; intros self; [done|].
  simpl. destruct (async_scope_step _ _ _ _ _ self op) as [[[]|e] self'];
    [apply IH|done].
Qed.

Lemma async_scope_steps_nested ops (depth : nat) (stack : Z)
    loop app manage lifespan (x : X) :
  (Z.of_nat depth < stack)%Z →
  nested depth ops = true →
  asteps (mkAsync false true stack loop app manage lifespan x) ops
  = (Return tt,
     mkAsync false true
       (stack - Z.of_nat depth + Z.of_nat (open_blocks depth ops))
       loop app manage lifespan x).
Proof.
  revert depth stack.
  induction ops as [|[|exc_info] ops IH]; intros depth stack Hlt Hnested.
  - simpl. do 2 f_equal. lia.
  - simpl in *. rewrite (IH (Datatypes.S depth)) by (done || lia).
    do 2 f_equal. lia.
  - destruct depth as [|depth]; [done|]. simpl in *.
    unfold PrefectClient_aexit. simpl.
    destruct (Z.ltb_spec 0 (stack - 1)) as [_|Hle]; [|lia].
    rewrite (IH depth) by (done || lia). do 2 f_equal. lia.
Qed.
End async_scope_facts.

(** X9: [async with] blocks on a new [PrefectClient] may be nested.  The
    first [__aenter__] records the running loop and enters, in this order,
    the exit stack, the lifespan of the application when the client was
    given one, and the [httpx] client; when these can be entered, every
    [__aenter__] and every inner [__aexit__] of properly nested blocks
    returns without entering or leaving anything, and the last [__aexit__]
    closes the client and leaves the exit stack once, with its exception
    information and its answer.  Entering the closed client again raises
    [RuntimeError]. *)
Theorem async_client_nested_scopes {X Loop App Lifespan}
    (running_loop : X → Loop)
    (exit_stack_aenter : X → Orchestration.outcome unit * X)
    (enter_lifespan : App → X → Orchestration.outcome Lifespan * X)
    (enter_client : X → Orchestration.outcome unit * X)
    (exit_stack_aexit : option Orchestration.exception → X
                        → Orchestration.outcome (option bool) * X)
    (app : option App) (lifespan : option Lifespan) (x0 x1 x2 x3 : X)
    (inner : list Orchestration.scope_op)
    (exc_info : option Orchestration.exception) :
  exit_stack_aenter x0 = (Orchestration.Return tt, x1) →
  match app with
  | Some a =>
      ∃ l, enter_lifespan a x1 = (Orchestration.Return l, x2) ∧ lifespan = Some l
  | None => x2 = x1 ∧ lifespan = None
  end →
  enter_client x2 = (Orchestration.Return tt, x3) →
  Orchestration.nested 0 inner = true →
  Orchestration.open_blocks 0 inner = 0 →
  let opened :=
    Orchestration.mkAsync false true 1 (Some (running_loop x0)) app true
      lifespan x3 in
  let final :=
    Orchestration.mkAsync true true 0 (Some (running_loop x0)) app true
      lifespan (snd (exit_stack_aexit exc_info x3)) in
  Orchestration.async_scope_steps running_loop exit_stack_aenter
    enter_lifespan enter_client exit_stack_aexit
    (Orchestration.PrefectClient_new app x0) (Orchestration.Enter :: inner)
  = (Orchestration.Return tt, opened)
  ∧ Orchestration.PrefectClient_aexit exit_stack_aexit opened exc_info
    = (fst (exit_stack_aexit exc_info x3), final)
  ∧ ∃ msg,
      Orchestration.PrefectClient_aenter running_loop exit_stack_aenter
        enter_lifespan enter_client final
      = (Orchestration.Raised (Orchestration.RuntimeError msg), final).
Proof.
  intros Hstack Hlifespan Hclient Hnested Hopen opened final.
  split_and!.
  - simpl. unfold Orchestration.PrefectClient_aenter. simpl. rewrite Hstack.
    assert (match app with
            | Some a =>
                match enter_lifespan a x1 with
                | (Orchestration.Return l, x) =>
                    (Orchestration.Return tt, Some l, x)
                | (Orchestration.Raised e, x) =>
                    (Orchestration.Raised e, None, x)
                end
            | None => (Orchestration.Return tt, None, x1)
            end = (Orchestration.Return tt, lifespan, x2)) as ->.
    { destruct app as [a|].
      - destruct Hlifespan as (l & -> & ->). done.
      - by destruct Hlifespan as [-> ->]. }
    rewrite Hclient.
    rewrite (async_scope_steps_nested _ _ _ _ _ inner 0 1) by (done || lia).
    rewrite Hopen. done.
  - unfold Orchestration.PrefectClient_aexit. simpl.
    by destruct (exit_stack_aexit exc_info x3).
  - by eexists.
Qed.

Lemma async_client_nested_scopes_witness :
  Orchestration.async_scope_steps (λ _ : list string, "loop") logging_aenter
    logging_lifespan logging_enter logging_aexit
    (Orchestration.PrefectClient_new (Some "app") [])
    (Orchestration.Enter :: [Orchestration.Enter; Orchestration.Exit None])
  = (Orchestration.Return tt,
     Orchestration.mkAsync false true 1 (Some "loop") (Some "app") true
       (Some "app") ["stack"; "lifespan"; "enter"]).
Proof.
  apply (async_client_nested_scopes (λ _ : list string, "loop") logging_aenter
           logging_lifespan logging_enter logging_aexit
           (Some "app") (Some "app") [] ["stack"] ["stack"; "lifespan"]
           ["stack"; "lifespan"; "enter"]
           [Orchestration.Enter; Orchestration.Exit None] None);
    [reflexivity | by eexists | reflexivity..].
Defined.

(** ** The version check *)

(** X10: [raise_for_api_version_mismatch] accepts a Cloud server without
    asking it anything.  For any other server it asks for the version:
    when both versions parse, it returns exactly when their majors are
    equal and raises [RuntimeError] otherwise; when the request fails with
    an instance of [Exception], the exception is passed on as it is if its
    text contains ["Unauthorized"] and is replaced by a [RuntimeError] if
    not; an exception that is not an instance of [Exception] is not caught
    and passes through unchanged. *)
Theorem version_mismatch_check {Response Version}
    (http_get : string → Orchestration.outcome Response)
    (json_str : Response → Orchestration.outcome string)
    (parse : string → Orchestration.outcome Version)
    (major : Version → nat) (str_version : Version → string)
    (str_exception : Orchestration.exception → string)
    (prefect_version api_url : string)
    (server_type : Orchestration.ServerType) :
  let check :=
    Orchestration.raise_for_api_version_mismatch http_get json_str parse major
      str_version str_exception prefect_version in
  check Orchestration.CLOUD api_url = Orchestration.Return tt
  ∧ (server_type ≠ Orchestration.CLOUD →
     ∀ v server client,
       Orchestration.api_version http_get json_str = Orchestration.Return v →
       parse v = Orchestration.Return server →
       parse prefect_version = Orchestration.Return client →
       (check server_type api_url = Orchestration.Return tt ↔
        major server = major client)
       ∧ (major server ≠ major client →
          ∃ msg, check server_type api_url
                 = Orchestration.Raised (Orchestration.RuntimeError msg)))
  ∧ (server_type ≠ Orchestration.CLOUD →
     ∀ e,
       Orchestration.api_version http_get json_str = Orchestration.Raised e →
       check server_type api_url
       = if Orchestration.is_Exception e then
           if Orchestration.occurs "Unauthorized" (str_exception e)
           then Orchestration.Raised e
           else Orchestration.Raised
                  (Orchestration.RuntimeError ("Failed to reach API at " ++ api_url))
         else Orchestration.Raised e).
Proof.
  intros check. subst check. split_and!.
  - done.
  - intros Hother v server client Hv Hserver Hclient.
    unfold Orchestration.raise_for_api_version_mismatch.
    rewrite decide_False by done.
    rewrite Hv, Hserver. unfold Orchestration.client_version. rewrite Hclient.
    destruct (Nat.eqb_spec (major server) (major client)) as [Heq|Hne]; simpl.
    + split; [done|]. by intros ?.
    + split; [split; [done|by intros ?]|]. intros _. by eexists.
  - intros Hother e He.
    unfold Orchestration.raise_for_api_version_mismatch.
    rewrite decide_False by done. by rewrite He.
Qed.

Lemma version_mismatch_check_witness :
  (Orchestration.raise_for_api_version_mismatch (sample_get "3.1.4") Orchestration.Return
     sample_parse id (λ _, "v") sample_str_exception "3.0.0"
     Orchestration.SERVER "http://localhost:4200/api"
   = Orchestration.Return tt ↔ id 3 = id 3)
  ∧ Orchestration.raise_for_api_version_mismatch
      (λ _ : string, Orchestration.Raised (A := string)
                       (Orchestration.OtherException "401 Unauthorized"))
      Orchestration.Return sample_parse id (λ _, "v") sample_str_exception "3.0.0"
      Orchestration.SERVER "http://localhost:4200/api"
    = Orchestration.Raised (Orchestration.OtherException "401 Unauthorized")
  ∧ Orchestration.raise_for_api_version_mismatch
      (λ _ : string, Orchestration.Raised (A := string)
                       (Orchestration.OtherException "connection refused"))
      Orchestration.Return sample_parse id (λ _, "v") sample_str_exception "3.0.0"
      Orchestration.SERVER "http://localhost:4200/api"
    = Orchestration.Raised
        (Orchestration.RuntimeError
           "Failed to reach API at http://localhost:4200/api")
  ∧ Orchestration.raise_for_api_version_mismatch
      (λ _ : string, Orchestration.Raised (A := string)
                       (Orchestration.BaseExceptionOnly "CancelledError"))
      Orchestration.Return sample_parse id (λ _, "v") sample_str_exception "3.0.0"
      Orchestration.SERVER "http://localhost:4200/api"
    = Orchestration.Raised (Orchestration.BaseExceptionOnly "CancelledError").
Proof.
  split_and!.
  - destruct (version_mismatch_check (sample_get "3.1.4") Orchestration.Return
                sample_parse id (λ _, "v") sample_str_exception "3.0.0"
                "http://localhost:4200/api" Orchestration.SERVER)
      as (_ & Hversions & _).
    apply (Hversions ltac:(discriminate) "3.1.4" 3 3); reflexivity.
  - destruct (version_mismatch_check
                (λ _ : string, Orchestration.Raised (A := string)
                                 (Orchestration.OtherException "401 Unauthorized"))
                Orchestration.Return sample_parse id (λ _, "v")
                sample_str_exception "3.0.0"
                "http://localhost:4200/api" Orchestration.SERVER)
      as (_ & _ & Hfail).
    apply (Hfail ltac:(discriminate)
             (Orchestration.OtherException "401 Unauthorized")).
    reflexivity.
  - destruct (version_mismatch_check
                (λ _ : string, Orchestration.Raised (A := string)
                                 (Orchestration.OtherException "connection refused"))
                Orchestration.Return sample_parse id (λ _, "v")
                sample_str_exception "3.0.0"
                "http://localhost:4200/api" Orchestration.SERVER)
      as (_ & _ & Hfail).
    apply (Hfail ltac:(discriminate)
             (Orchestration.OtherException "connection refused")).
    reflexivity.
  - destruct (version_mismatch_check
                (λ _ : string, Orchestration.Raised (A := string)
                                 (Orchestration.BaseExceptionOnly "CancelledError"))
                Orchestration.Return sample_parse id (λ _, "v")
                sample_str_exception "3.0.0"
                "http://localhost:4200/api" Orchestration.SERVER)
      as (_ & _ & Hfail).
    apply (Hfail ltac:(discriminate)
             (Orchestration.BaseExceptionOnly "CancelledError")).
    reflexivity.
Defined.

(** ** Looking an automation up *)

Section automation_facts.
Import Orchestration.
Context {Automation : Type}.
Variable name : Automation → string.
Variable lower : string → string.
Implicit Types (l : list Automation) (a : Automation).

Lemma first_exact_Some wanted l a :
  first_exact name wanted l = Some a → a ∈ l ∧ name a = wanted.
Proof.
  induction l as [|a0 l IH]; [done|]. simpl.
  destruct (String.eqb_spec (name a0) wanted) as [Heq|Hne].
  - intros [= <-]. split; [by left|done].
  - intros [Hin Hname]%IH. split; [by right|done].
Qed.

Lemma first_exact_None wanted l :
  first_exact name wanted l = None ↔ ∀ a, a ∈ l → name a ≠ wanted.
Proof.
  induction l as [|a0 l IH]; simpl.
  - split; [|done]. intros _ a Ha. by apply elem_of_nil in Ha.
  - destruct (String.eqb_spec (name a0) wanted) as [Heq|Hne].
    + split; [done|]. intros Hall. destruct (Hall a0); [by left|done].
    + rewrite IH. split.
      * intros Hall a [->|Ha]%elem_of_cons; [done|by apply Hall].
      * intros Hall a Ha. apply Hall. by right.
Qed.

Lemma first_caseless_Some wanted l a :
  first_caseless name lower wanted l = Some a →
  a ∈ l ∧ lower (name a) = lower wanted.
Proof.
  induction l as [|a0 l IH]; [done|]. simpl.
  destruct (String.eqb_spec (lower (name a0)) (lower wanted)) as [Heq|Hne].
  - intros [= <-]. split; [by left|done].
  - intros [Hin Hname]%IH. split; [by right|done].
Qed.

Lemma first_caseless_None wanted l :
  first_caseless name lower wanted l = None ↔
  ∀ a, a ∈ l → lower (name a) ≠ lower wanted.
Proof.
  induction l as [|a0 l IH]; simpl.
  - split; [|done]. intros _ a Ha. by apply elem_of_nil in Ha.
  - destruct (String.eqb_spec (lower (name a0)) (lower wanted)) as [Heq|Hne].
    + split; [done|]. intros Hall. destruct (Hall a0); [by left|done].
    + rewrite IH. split.
      * intros Hall a [->|Ha]%elem_of_cons; [done|by apply Hall].
      * intros Hall a Ha. apply Hall. by right.
Qed.
End automation_facts.

(** X11: [find_automation] with a string that is not a UUID looks among
    the automations the server lists.  The answer is an automation of the
    list whose name equals the string up to case, and [None] exactly when
    there is none; when some automation has exactly the name, the answer
    has exactly the name, even if an automation earlier in the list only
    matches up to case. *)
Theorem find_automation_by_name {Response Automation UUID}
    (http_get http_post : string → Orchestration.outcome Response)
    (status_code : Response → nat)
    (raise_for_status : Response → Orchestration.outcome unit)
    (validate_automation : Response → Orchestration.outcome Automation)
    (validate_automations : Response → Orchestration.outcome (list Automation))
    (name : Automation → string)
    (parse_UUID : string → option UUID) (str_UUID : UUID → string)
    (lower : string → string)
    (wanted : string) (automations : list Automation) :
  parse_UUID wanted = None →
  Orchestration.read_automations http_post raise_for_status validate_automations
    = Orchestration.Return automations →
  ∃ found,
    Orchestration.find_automation http_get http_post status_code
      raise_for_status validate_automation validate_automations name
      parse_UUID str_UUID lower (inl wanted)
    = Orchestration.Return found
    ∧ (∀ a, found = Some a →
            a ∈ automations ∧ lower (name a) = lower wanted)
    ∧ (found = None ↔
       ∀ a, a ∈ automations → lower (name a) ≠ lower wanted)
    ∧ ((∃ a, a ∈ automations ∧ name a = wanted) →
       ∃ a, found = Some a ∧ name a = wanted).
Proof.
  intros Hparse Hlist.
  unfold Orchestration.find_automation, Orchestration.find_by_name.
  rewrite Hparse, Hlist.
  destruct (Orchestration.first_exact name wanted automations) as [a|] eqn:Hexact.
  - apply first_exact_Some in Hexact as [Hin Hname].
    exists (Some a). split_and!; [done| | |].
    + intros ? [= <-]. split; [done|]. by rewrite Hname.
    + split; [done|]. intros Hnone. destruct (Hnone a Hin). by rewrite Hname.
    + intros _. by exists a.
  - eexists. split_and!; [done| | |].
    + intros a. apply first_caseless_Some.
    + apply first_caseless_None.
    + intros (a & Hin & Hname).
      rewrite first_exact_None in Hexact. by destruct (Hexact a Hin).
Qed.

(** X12: [find_automation] with a UUID, or with a string that reads as
    one, asks for that automation first.  Whatever [read_automation]
    returns is the answer, also [None] for a response with status 404, and
    the automations are then never listed.  An [HTTPStatusError] with
    status 404 becomes [ObjectNotFound]; one with another status is
    dropped and the lookup goes on by name; any other exception is passed
    on. *)
Theorem find_automation_by_id {Response Automation UUID}
    (http_get http_post : string → Orchestration.outcome Response)
    (status_code : Response → nat)
    (raise_for_status : Response → Orchestration.outcome unit)
    (validate_automation : Response → Orchestration.outcome Automation)
    (validate_automations : Response → Orchestration.outcome (list Automation))
    (name : Automation → string)
    (parse_UUID : string → option UUID) (str_UUID : UUID → string)
    (lower : string → string)
    (id_or_name : string + UUID) (id : UUID) (wanted : string) :
  match id_or_name with
  | inl s => parse_UUID s = Some id ∧ wanted = s
  | inr id' => id' = id ∧ wanted = str_UUID id
  end →
  let find http_post :=
    Orchestration.find_automation http_get http_post status_code
      raise_for_status validate_automation validate_automations name
      parse_UUID str_UUID lower id_or_name in
  let read :=
    Orchestration.read_automation http_get status_code raise_for_status
      validate_automation str_UUID id in
  (∀ answer, read = Orchestration.Return answer →
     ∀ any_post, find any_post = Orchestration.Return answer)
  ∧ (∀ response,
       http_get ("/automations/" ++ str_UUID id)%string
       = Orchestration.Return response →
       status_code response = 404 →
       ∀ any_post, find any_post = Orchestration.Return None)
  ∧ (∀ text,
       read = Orchestration.Raised (Orchestration.HTTPStatusError 404 text) →
       find http_post
       = Orchestration.Raised
           (Orchestration.ObjectNotFound (Orchestration.HTTPStatusError 404 text)))
  ∧ (∀ code text,
       code ≠ 404 →
       read = Orchestration.Raised (Orchestration.HTTPStatusError code text) →
       find http_post
       = Orchestration.find_by_name http_post raise_for_status
           validate_automations name lower wanted)
  ∧ (∀ e,
       (∀ code text, e ≠ Orchestration.HTTPStatusError code text) →
       read = Orchestration.Raised e →
       find http_post = Orchestration.Raised e).
Proof.
  intros Hid find read.
  assert (∀ any_post,
            find any_post
            = match read with
              | Orchestration.Return automation => Orchestration.Return automation
              | Orchestration.Raised (Orchestration.HTTPStatusError code text) =>
                  if code =? 404
                  then Orchestration.Raised
                         (Orchestration.ObjectNotFound
                            (Orchestration.HTTPStatusError code text))
                  else Orchestration.find_by_name any_post raise_for_status
                         validate_automations name lower wanted
              | Orchestration.Raised e => Orchestration.Raised e
              end) as Hfind.
  { intros any_post. subst find read. unfold Orchestration.find_automation.
    destruct id_or_name as [s|id'].
    - destruct Hid as [-> ->]. done.
    - destruct Hid as [-> ->]. done. }
  split_and!.
  - intros answer Hread any_post. by rewrite Hfind, Hread.
  - intros response Hget Hstatus any_post. rewrite Hfind.
    subst read. unfold Orchestration.read_automation.
    by rewrite Hget, Hstatus.
  - intros text Hread. by rewrite Hfind, Hread.
  - intros code text Hcode Hread. rewrite Hfind, Hread.
    by rewrite (proj2 (Nat.eqb_neq code 404) Hcode).
  - intros e Hother Hread. rewrite Hfind, Hread.
    destruct e as [| |code text| | | |]; try done. by destruct (Hother code text).
Qed.

Lemma find_automation_by_name_witness :
  ∃ found,
    Orchestration.find_automation sample_unknown sample_list fst
      sample_raise_for_status sample_validate_one sample_validate_all id
      sample_parse_UUID sample_str_UUID sample_lower (inl "cleanup")
    = Orchestration.Return found
    ∧ (∀ a, found = Some a →
            a ∈ sample_automations ∧ sample_lower (id a) = sample_lower "cleanup")
    ∧ (found = None ↔
       ∀ a, a ∈ sample_automations → sample_lower (id a) ≠ sample_lower "cleanup")
    ∧ ((∃ a, a ∈ sample_automations ∧ id a = "cleanup") →
       ∃ a, found = Some a ∧ id a = "cleanup").
Proof.
  apply (find_automation_by_name sample_unknown sample_list fst
           sample_raise_for_status sample_validate_one sample_validate_all id
           sample_parse_UUID sample_str_UUID sample_lower
           "cleanup" sample_automations); reflexivity.
Defined.

Lemma find_automation_by_id_witness :
  Orchestration.find_automation sample_unknown
    (λ _, Orchestration.Raised (Orchestration.OtherException "never asked")) fst
    sample_raise_for_status sample_validate_one sample_validate_all id
    sample_parse_UUID sample_str_UUID sample_lower (inl "7")
  = Orchestration.Return None.
Proof.
  destruct (find_automation_by_id sample_unknown sample_list fst
              sample_raise_for_status sample_validate_one sample_validate_all id
              sample_parse_UUID sample_str_UUID sample_lower (inl "7") 7 "7")
    as (Hanswer & _); [split; reflexivity|].
  apply (Hanswer None). reflexivity.
Defined.

(** ** Work queues *)

Section work_queue_facts.
Import Orchestration.
Context {Response WorkQueue Filter : Type}.
Variable http_post : string → FilterBody Filter → outcome Response.
Variable validate_work_queues : Response → outcome (list WorkQueue).
Variable startswith_filter : list string → Filter.

#[local] Abbreviation read :=
  (read_work_queues http_post validate_work_queues).
#[local] Abbreviation loop :=
  (match_work_queues_loop http_post validate_work_queues startswith_filter).

(** The loop from any page on, against a server that serves the slices of
    one list. *)
Lemma match_work_queues_loop_pages prefixes work_pool_name
    (all : list WorkQueue) (fuel page : nat) :
  (∀ page,
     read work_pool_name (Some (startswith_filter prefixes))
       (Some page_length) (Some (page * page_length))
     = Return (take page_length (drop (page * page_length) all))) →
  page * page_length < length all + page_length →
  length all + page_length ≤ (page + fuel) * page_length →
  loop fuel prefixes work_pool_name page (take (page * page_length) all)
  = Some (Return all).
Proof.
  intros Hserver. revert page.
  induction fuel as [|fuel IH]; intros page Hpage Hfuel.
  - unfold page_length in *. lia.
  - cbn [match_work_queues_loop]. rewrite Hserver.
    destruct (take page_length (drop (page * page_length) all))
      as [|q new_queues] eqn:Hnew.
    + apply take_nil_inv in Hnew as [Hzero|Hdrop]; [done|].
      apply drop_nil_inv in Hdrop. by rewrite take_ge.
    + rewrite <- Hnew, take_take_drop.
      assert (page * page_length < length all) as Hmore.
      { destruct (decide (page * page_length < length all)); [done|].
        rewrite drop_ge in Hnew by lia. by rewrite take_nil in Hnew. }
      replace (page * page_length + page_length)
        with (Datatypes.S page * page_length) by (unfold page_length; lia).
      apply IH; unfold page_length in *; lia.
Qed.
End work_queue_facts.



(** X14: [read_work_queues] turns a 404 of the server into
    [ObjectNotFound] only when it was given a work pool name; with no
    name, or with the empty name, the request goes to
    ["/work_queues/filter"] and whatever it raises, a 404 included, reaches
    the caller as it is.  Errors with another status are never changed. *)
Theorem read_work_queues_not_found {Response WorkQueue Filter}
    (http_post : string → Orchestration.FilterBody Filter
                 → Orchestration.outcome Response)
    (validate_work_queues : Response → Orchestration.outcome (list WorkQueue))
    (work_pool_name : option string) (work_queue_filter : option Filter)
    (limit offset : option nat) :
  let json := Orchestration.mkFilterBody work_queue_filter limit offset in
  let read :=
    Orchestration.read_work_queues http_post validate_work_queues
      work_pool_name work_queue_filter limit offset in
  (∀ pool text,
     work_pool_name = Some pool → pool ≠ EmptyString →
     http_post ("/work_pools/" ++ pool ++ "/queues/filter")%string json
     = Orchestration.Raised (Orchestration.HTTPStatusError 404 text) →
     read = Orchestration.Raised
              (Orchestration.ObjectNotFound (Orchestration.HTTPStatusError 404 text)))
  ∧ (∀ pool code text,
       work_pool_name = Some pool → pool ≠ EmptyString → code ≠ 404 →
       http_post ("/work_pools/" ++ pool ++ "/queues/filter")%string json
       = Orchestration.Raised (Orchestration.HTTPStatusError code text) →
       read = Orchestration.Raised (Orchestration.HTTPStatusError code text))
  ∧ (∀ e,
       work_pool_name = None ∨ work_pool_name = Some EmptyString →
       http_post "/work_queues/filter" json = Orchestration.Raised e →
       read = Orchestration.Raised e).
Proof.
  intros json read. subst json read. split_and!.
  - intros pool text -> Hpool Hpost. unfold Orchestration.read_work_queues.
    unfold truthy_str. rewrite (proj2 (String.eqb_neq _ _) Hpool). simpl.
    by rewrite Hpost.
  - intros pool code text -> Hpool Hcode Hpost.
    unfold Orchestration.read_work_queues.
    unfold truthy_str. rewrite (proj2 (String.eqb_neq _ _) Hpool). simpl.
    rewrite Hpost. by rewrite (proj2 (Nat.eqb_neq code 404) Hcode).
  - intros e [-> | ->] Hpost; unfold Orchestration.read_work_queues; simpl;
      by rewrite Hpost.
Qed.

Lemma read_work_queues_not_found_witness :
  Orchestration.read_work_queues
    (λ (url : string) (_ : Orchestration.FilterBody (list string)),
       Orchestration.Raised (A := list nat)
         (Orchestration.HTTPStatusError 404 "Not Found"))
    Orchestration.Return (Some EmptyString) None (Some 10) None
  = Orchestration.Raised (Orchestration.HTTPStatusError 404 "Not Found").
Proof.
  destruct (read_work_queues_not_found
              (λ (url : string) (_ : Orchestration.FilterBody (list string)),
                 Orchestration.Raised (A := list nat)
                   (Orchestration.HTTPStatusError 404 "Not Found"))
              Orchestration.Return (Some EmptyString) None (Some 10) None)
    as (_ & _ & Hplain).
  apply Hplain; [by right | reflexivity].
Defined.

(** ** The constructors of the clients *)

Section client_init_facts.
Import Orchestration.

Lemma setdefault_lookup {V} (key key' : string) (value : V) (d : gmap string V) :
  setdefault key value d !! key'
  = match d !! key' with
    | Some v => Some v
    | None => if decide (key = key') then Some value else None
    end.
Proof.
  unfold setdefault. destruct (d !! key) as [v|] eqn:Hkey.
  - destruct (d !! key') as [v'|] eqn:Hkey'; [done|].
    destruct (decide (key = key')) as [<-|]; [congruence|done].
  - destruct (decide (key = key')) as [<-|Hne].
    + by rewrite lookup_insert_eq, Hkey.
    + rewrite lookup_insert_ne by done. by destruct (d !! key').
Qed.

Lemma setdefault_keeps {V} (key key' : string) (value v : V) (d : gmap string V) :
  d !! key' = Some v → setdefault key value d !! key' = Some v.
Proof. intros Hd. by rewrite setdefault_lookup, Hd. Qed.

Lemma setdefault_other {V} (key key' : string) (value : V) (d : gmap string V) :
  key ≠ key' → setdefault key value d !! key' = d !! key'.
Proof.
  intros Hne. rewrite setdefault_lookup, decide_False by done.
  by destruct (d !! key').
Qed.

Context {App Obj Timeout : Type}.
Variable truthy_obj : Obj → bool.
Variable certifi_where : string.
Variable unverified_context : Obj.
Variable verified_context : string → Obj.
Variable httpx_Limits : Obj.
Variable httpx_Timeout : Timeout → Obj.
Variable ASGITransport : App → Obj.
Variable b64encode : string → string.
Implicit Types (settings : ClientSettings Timeout)
  (others : gmap string (Value App Obj)) (h : gmap string string).

Lemma init_headers_lookup settings auth_string api_key api_version h key :
  init_headers b64encode settings auth_string api_key api_version h !! key
  = match h !! key with
    | Some v => Some v
    | None =>
        if decide (key = "X-PREFECT-API-VERSION") then
          Some (default (SERVER_API_VERSION settings) api_version)
        else if decide (key = "Authorization") then
          if truthy_str api_key
          then Some ("Bearer " ++ default EmptyString api_key)%string
          else if truthy_str auth_string
          then Some ("Basic " ++ b64encode (default EmptyString auth_string))%string
          else None
        else None
    end.
Proof.
  unfold init_headers.
  destruct (truthy_str api_key), (truthy_str auth_string);
    rewrite ?setdefault_lookup;
    destruct (h !! key); try done;
    repeat case_decide; subst; try done.
Qed.

Lemma init_verify_keeps settings others key v :
  others !! key = Some v →
  init_verify certifi_where unverified_context verified_context settings others
    !! key = Some v.
Proof.
  intros Hkey. unfold init_verify.
  destruct (PREFECT_API_TLS_INSECURE_SKIP_VERIFY settings);
    by apply setdefault_keeps.
Qed.

Lemma init_verify_other settings others key :
  key ≠ "verify" →
  init_verify certifi_where unverified_context verified_context settings others
    !! key = others !! key.
Proof.
  intros Hkey. unfold init_verify.
  destruct (PREFECT_API_TLS_INSECURE_SKIP_VERIFY settings);
    by rewrite setdefault_other.
Qed.

Lemma init_url_Return settings url server_type others others' server_type' :
  init_url truthy_obj httpx_Limits settings url server_type others
    = Return (others', server_type') →
  truthy truthy_obj (others !! "app") = false
  ∧ server_type'
    = match server_type with
      | Some t => t
      | None =>
          if String.prefix (PREFECT_CLOUD_API_URL settings) url
          then CLOUD else SERVER
      end
  ∧ (∀ key v, others !! key = Some v → others' !! key = Some v)
  ∧ others' !! "base_url" = Some (default (VStr url) (others !! "base_url")).
Proof.
  unfold init_url. destruct (truthy truthy_obj (others !! "app")); [done|].
  intros [= <- <-]. split_and!; [done..| |].
  - intros key v Hkey. by do 3 apply setdefault_keeps.
  - rewrite !setdefault_other by done. rewrite setdefault_lookup.
    by destruct (others !! "base_url").
Qed.

Lemma init_finish_Return settings api h others t app c :
  init_finish truthy_obj httpx_Timeout settings api h others t app = Return c →
  client_headers c = h
  ∧ server_type c = t
  ∧ _ephemeral_app c = app
  ∧ enable_csrf_support c
    = negb (bool_decide (t = CLOUD)) && PREFECT_CLIENT_CSRF_SUPPORT_ENABLED settings
  ∧ (∀ key v, others !! key = Some v → client_settings c !! key = Some v).
Proof.
  unfold init_finish. destruct (_ !! "enable_csrf_support"); [done|].
  intros [= <-]. simpl. split_and!; [done..|].
  intros key v Hkey.
  destruct (PREFECT_TESTING_UNIT_TEST_MODE settings); simpl;
    by repeat apply setdefault_keeps.
Qed.
End client_init_facts.

Section client_init_theorems.
Import Orchestration.
Context {App Obj Timeout : Type}.
Variable truthy_obj : Obj → bool.
Variable certifi_where : string.
Variable unverified_context : Obj.
Variable verified_context : string → Obj.
Variable httpx_Limits : Obj.
Variable httpx_Timeout : Timeout → Obj.
Variable ASGITransport : App → Obj.
Variable b64encode : string → string.

#[local] Abbreviation sync_init :=
  (SyncPrefectClient_init truthy_obj certifi_where unverified_context
     verified_context httpx_Limits httpx_Timeout b64encode).
#[local] Abbreviation async_init :=
  (PrefectClient_init truthy_obj certifi_where unverified_context
     verified_context httpx_Limits httpx_Timeout ASGITransport b64encode).

(** What a constructor that returns went through. *)
Lemma init_Return (settings : ClientSettings Timeout) (api : string + App)
    auth_string api_key api_version
    (httpx_settings : option (HttpxSettings App Obj)) server_type c :
  sync_init settings api auth_string api_key api_version httpx_settings server_type
    = Return c
  ∨ async_init settings api auth_string api_key api_version httpx_settings
      server_type = Return c →
  let given := default (mkHttpxSettings None ∅) httpx_settings in
  ∃ others,
    init_finish truthy_obj httpx_Timeout settings api
      (init_headers b64encode settings auth_string api_key api_version
         (default ∅ (headers given)))
      others
      (match api with
       | inl url =>
           match server_type with
           | Some t => t
           | None =>
               if String.prefix (PREFECT_CLOUD_API_URL settings) url
               then CLOUD else SERVER
           end
       | inr _ => EPHEMERAL
       end)
      (match api with inl _ => None | inr app => Some app end)
    = Return c
    ∧ (∀ key v, Orchestration.others given !! key = Some v →
                others !! key = Some v)
    ∧ match api with
      | inl url =>
          truthy truthy_obj (Orchestration.others given !! "app") = false
          ∧ others !! "base_url"
            = Some (default (VStr url) (Orchestration.others given !! "base_url"))
      | inr _ => True
      end.
Proof.
  intros Hinit given.
  unfold SyncPrefectClient_init, PrefectClient_init in Hinit.
  fold given in Hinit.
  destruct api as [url|app].
  - assert (∃ others t,
              init_url truthy_obj httpx_Limits settings url server_type
                (init_verify certifi_where unverified_context verified_context
                   settings (Orchestration.others given))
              = Return (others, t)
              ∧ init_finish truthy_obj httpx_Timeout settings (inl url)
                  (init_headers b64encode settings auth_string api_key
                     api_version (default ∅ (headers given)))
                  others t None = Return c) as (others & t & Hurl & Hfinish).
    { destruct (init_url _ _ _ _ _ _) as [[others t]|e];
        [by exists others, t; destruct Hinit | by destruct Hinit]. }
    apply init_url_Return in Hurl as (Happ & -> & Hkeeps & Hbase).
    exists others. split_and!; [done| | |].
    + intros key v Hkey. apply Hkeeps. by apply init_verify_keeps.
    + by rewrite init_verify_other in Happ.
    + by rewrite init_verify_other in Hbase.
  - destruct Hinit as [Hinit|Hinit].
    + eexists. split_and!; [exact Hinit| |done].
      intros key v Hkey. by apply init_verify_keeps.
    + eexists. split_and!; [exact Hinit| |done].
      intros key v Hkey. do 2 apply setdefault_keeps. by apply init_verify_keeps.
Qed.

(** X15: in both constructors the headers given in [httpx_settings] are
    kept as they are, and only two headers can be added.  The
    [Authorization] header is the caller's when there is one, else
    ["Bearer <api_key>"] when an API key is given, else
    ["Basic <base64 of auth_string>"] when an auth string is given, else
    absent: the API key wins over the auth string.  The
    [X-PREFECT-API-VERSION] header is the caller's, else the [api_version]
    argument, else [SERVER_API_VERSION]. *)
Theorem client_headers_precedence (settings : ClientSettings Timeout)
    (api : string + App) auth_string api_key api_version
    (httpx_settings : option (HttpxSettings App Obj)) server_type c :
  sync_init settings api auth_string api_key api_version httpx_settings server_type
    = Return c
  ∨ async_init settings api auth_string api_key api_version httpx_settings
      server_type = Return c →
  let given :=
    default ∅ (headers (default (mkHttpxSettings None ∅) httpx_settings)) in
  (∀ key v, given !! key = Some v → client_headers c !! key = Some v)
  ∧ client_headers c !! "Authorization"
    = match given !! "Authorization" with
      | Some v => Some v
      | None =>
          if truthy_str api_key
          then Some ("Bearer " ++ default EmptyString api_key)%string
          else if truthy_str auth_string
          then Some ("Basic " ++ b64encode (default EmptyString auth_string))%string
          else None
      end
  ∧ client_headers c !! "X-PREFECT-API-VERSION"
    = Some (default (default (SERVER_API_VERSION settings) api_version)
              (given !! "X-PREFECT-API-VERSION"))
  ∧ (∀ key, key ≠ "Authorization" → key ≠ "X-PREFECT-API-VERSION" →
            client_headers c !! key = given !! key).
Proof.
  intros Hinit given.
  apply init_Return in Hinit as (others & Hfinish & _).
  apply init_finish_Return in Hfinish as (-> & _). fold given.
  split_and!.
  - intros key v Hkey. by rewrite init_headers_lookup, Hkey.
  - rewrite init_headers_lookup. by destruct (given !! "Authorization").
  - rewrite init_headers_lookup. by destruct (given !! "X-PREFECT-API-VERSION").
  - intros key Hauth Hversion. rewrite init_headers_lookup.
    destruct (given !! key); [done|]. by rewrite !decide_False.
Qed.


(** X17: a constructor never replaces an entry of [httpx_settings]: every
    entry the caller gave reaches the [httpx] client unchanged.  The base
    URL in particular is the caller's when given; otherwise it is the API
    URL for an API given by its URL and, for an application,
    ["http://ephemeral-prefect/api"] in [PrefectClient] while
    [SyncPrefectClient] sets none. *)
Theorem client_settings_kept (settings : ClientSettings Timeout)
    (api : string + App) auth_string api_key api_version
    (httpx_settings : option (HttpxSettings App Obj)) server_type c :
  let given := others (default (mkHttpxSettings None ∅) httpx_settings) in
  let sync :=
    sync_init settings api auth_string api_key api_version httpx_settings
      server_type in
  let async :=
    async_init settings api auth_string api_key api_version httpx_settings
      server_type in
  (sync = Return c ∨ async = Return c →
   (∀ key v, given !! key = Some v → client_settings c !! key = Some v)
   ∧ (∀ url, api = inl url →
        client_settings c !! "base_url"
        = Some (default (VStr url) (given !! "base_url"))))
  ∧ (∀ app, api = inr app → async = Return c →
       client_settings c !! "base_url"
       = Some (default (VStr "http://ephemeral-prefect/api")
                 (given !! "base_url")))
  ∧ (∀ app, api = inr app → sync = Return c →
       client_settings c !! "base_url" = given !! "base_url").
Proof.
  intros given sync async. split_and!.
  - intros Hinit. apply init_Return in Hinit as (others' & Hfinish & Hkeeps & Hurl).
    apply init_finish_Return in Hfinish as (_ & _ & _ & _ & Hfinish).
    split.
    + intros key v Hkey. apply Hfinish, Hkeeps. done.
    + intros url ->. apply Hfinish. by destruct Hurl as [_ ->].
  - intros app -> Hasync. subst async. unfold PrefectClient_init in Hasync.
    unfold init_finish in Hasync.
    destruct (_ !! "enable_csrf_support"); [done|].
    injection Hasync as <-. simpl.
    assert (∀ o : gmap string (Value App Obj),
              (if negb (PREFECT_TESTING_UNIT_TEST_MODE settings)
               then setdefault "follow_redirects" (VBool true) o else o)
                !! "base_url" = o !! "base_url") as ->.
    { intros o. destruct (PREFECT_TESTING_UNIT_TEST_MODE settings); simpl;
        [done|by rewrite setdefault_other]. }
    rewrite setdefault_other by done. rewrite setdefault_lookup.
    rewrite setdefault_other by done. rewrite init_verify_other by done.
    fold given. by destruct (given !! "base_url").
  - intros app -> Hsync. subst sync. unfold SyncPrefectClient_init in Hsync.
    unfold init_finish in Hsync.
    destruct (_ !! "enable_csrf_support"); [done|].
    injection Hsync as <-. simpl.
    assert (∀ o : gmap string (Value App Obj),
              (if negb (PREFECT_TESTING_UNIT_TEST_MODE settings)
               then setdefault "follow_redirects" (VBool true) o else o)
                !! "base_url" = o !! "base_url") as ->.
    { intros o. destruct (PREFECT_TESTING_UNIT_TEST_MODE settings); simpl;
        [done|by rewrite setdefault_other]. }
    rewrite setdefault_other by done. by rewrite init_verify_other.
Qed.
End client_init_theorems.

Lemma client_headers_precedence_witness :
  ∃ c,
    sample_sync_init (inl "http://localhost:4200/api") (Some "user:pass")
      (Some "key") None None None = Orchestration.Return c
    ∧ Orchestration.client_headers c !! "Authorization" = Some "Bearer key".
Proof.
  eexists. split; [reflexivity|].
  match goal with
  | |- Orchestration.client_headers ?c !! _ = _ =>
      destruct (client_headers_precedence (λ _, true) "cacert.pem" "unverified"
                  (λ file, file) "limits" (λ _, "timeout") (λ app, app) (λ s, s)
                  sample_client_settings (inl "http://localhost:4200/api")
                  (Some "user:pass") (Some "key") None None None c
                  (or_introl eq_refl)) as (_ & Hauth & _)
  end.
  rewrite Hauth. reflexivity.
Defined.


Lemma client_settings_kept_witness :
  ∃ c,
    sample_sync_init (inl "http://localhost:4200/api") None None None
      (Some (Orchestration.mkHttpxSettings None
               {["http2" := Orchestration.VBool false]})) None
    = Orchestration.Return c
    ∧ Orchestration.client_settings c !! "http2"
      = Some (Orchestration.VBool false)
    ∧ Orchestration.client_settings c !! "base_url"
      = Some (Orchestration.VStr "http://localhost:4200/api").
Proof.
  eexists. split; [reflexivity|].
  match goal with
  | |- Orchestration.client_settings ?c !! _ = _ ∧ _ =>
      destruct (client_settings_kept (λ _, true) "cacert.pem" "unverified"
                  (λ file, file) "limits" (λ _, "timeout") (λ app, app) (λ s, s)
                  sample_client_settings (inl "http://localhost:4200/api")
                  None None None
                  (Some (Orchestration.mkHttpxSettings None
                           {["http2" := Orchestration.VBool false]})) None c)
        as (Hkept & _);
      destruct (Hkept (or_introl eq_refl)) as (Hkeys & Hbase)
  end.
  split.
  - apply Hkeys. reflexivity.
  - apply (Hbase "http://localhost:4200/api"). reflexivity.
Defined.
